(** * cyber/timer/timer.cc : the timer handle, its task and the drift compensation

    A shallow embedding of [Timer::InitTimerTask], [Timer::Start],
    [Timer::Stop] and of the two lambdas installed as the task's callback.

    - 64-bit integers are [Z] with the wrap-around written out
      ([wrap64] for [uint64_t], [to_int64] for a conversion to [int64_t]).
    - [double] is IEEE-754 binary64 as given by the standard library's
      [SpecFloat]; [llround] is written on top of it.
    - [shared_ptr] / [weak_ptr] are addresses into a store of task objects
      with a use count; [std::mutex] is a flag in the task.
    - The effects of the code (error log, user callback, submissions to the
      timing wheel) are recorded in the system state.
    - The user's callback is an input of the model: it returns, or it leaves
      by an exception; it is taken not to call the timer's own methods.
    - A second, small-step model interleaves [Timer::Stop] with one
      invocation of the task's callback, over the same atomic operations. *)

From Stdlib Require Import ZArith Lia Bool List.
From Stdlib Require Import Floats.SpecFloat.
From stdpp Require Import base option gmap list.

Local Open Scope Z_scope.

(** ** Machine integers *)

Definition wrap64 (z : Z) : Z := z mod 2 ^ 64.

Definition to_int64 (z : Z) : Z := (z + 2 ^ 63) mod 2 ^ 64 - 2 ^ 63.

Definition INT64_MIN : Z := - 2 ^ 63.
Definition INT64_MAX : Z := 2 ^ 63 - 1.

Definition in_int64 (z : Z) : bool := (INT64_MIN <=? z) && (z <=? INT64_MAX).

(** ** Doubles

    [static_cast<double>(n)] rounds the integer to the nearest binary64
    value (ties to even); [/ 1e6] is the correctly rounded quotient;
    [llround] rounds to the nearest integer, halfway cases away from zero. *)

Definition prec : Z := 53.
Definition emax : Z := 1024.

Definition to_double (z : Z) : spec_float := binary_normalize prec emax z 0 false.

Definition double_1e6 : spec_float := to_double 1000000.

(** The integer nearest to the double, halfway cases away from zero. *)
Definition round_half_away (f : spec_float) : option Z :=
  match f with
  | S754_zero _ => Some 0
  | S754_finite s m e =>
      let mag := if 0 <=? e then Z.pos m * 2 ^ e
                 else (2 * Z.pos m + 2 ^ (- e)) / 2 ^ (- e + 1) in
      Some (if s then - mag else mag)
  | S754_infinity _ | S754_nan => None
  end.

(** [std::llround] returns a [long long].  Outside its range (and for NaN
    and the infinities) the C++ result is unspecified; the model returns
    [INT64_MIN] there, as the x86-64 conversion does. *)
Definition llround (f : spec_float) : Z :=
  match round_half_away f with
  | Some r => if in_int64 r then r else INT64_MIN
  | None => INT64_MIN
  end.

(** [llround(static_cast<double>(ns) / 1e6)] *)
Definition ns_to_ms (ns : Z) : Z := llround (SFdiv prec emax (to_double ns) double_1e6).

(** The rounding of the exact quotient, for comparison with [ns_to_ms]. *)
Definition exact_ns_to_ms (ns : Z) : Z :=
  if 0 <=? ns then (2 * ns + 1000000) / 2000000
  else - ((2 * (- ns) + 1000000) / 2000000).

(** The words "the nearest integer, halfway cases away from zero", for the
    value [(-1)^s * m * 2^e] of a finite double: [| |r| - m * 2^e | <= 1/2],
    with [|r|] the larger of the two integers when the distance is 1/2.  The
    inequalities are multiplied by twice the denominator. *)
Definition nearest_half_away (f : spec_float) (r : Z) : Prop :=
  match f with
  | S754_zero _ => r = 0
  | S754_finite s m e =>
      (if s then r <= 0 else 0 <= r) /\
      2 * Z.abs r * 2 ^ Z.max (- e) 0 - 2 ^ Z.max (- e) 0
        <= 2 * (Z.pos m * 2 ^ Z.max e 0)
        < 2 * Z.abs r * 2 ^ Z.max (- e) 0 + 2 ^ Z.max (- e) 0
  | S754_infinity _ | S754_nan => False
  end.

(** The binary64 quotient of the integer, converted to a double, by 10^6, in
    the standard library's own operations; [ns_to_ms] is compared with it. *)
Definition quotient_1e6 (ns : Z) : spec_float :=
  SFdiv 53 1024 (binary_normalize 53 1024 ns 0 false)
                (binary_normalize 53 1024 1000000 0 false).

(** A double that is a zero, or is finite with at most 53 binary digits and
    a magnitude below [2^B]; its sign is [b] when [sgn] is [Some b]. *)
Definition small_double (sgn : option bool) (B : Z) (f : spec_float) : Prop :=
  match f with
  | S754_zero _ => True
  | S754_finite s m e =>
      (forall b, sgn = Some b -> s = b) /\
      Z.pos (digits2_pos m) <= 53 /\ Z.pos (digits2_pos m) + e <= B
  | S754_infinity _ | S754_nan => False
  end.

(** ** Constants of the timing wheel

    [TIMER_RESOLUTION_MS] and [TIMER_MAX_INTERVAL_MS] are declared in
    cyber/timer/timing_wheel.h; they are parameters of the development. *)

Class TimingWheelConstants := {
  TIMER_RESOLUTION_MS : Z;
  TIMER_MAX_INTERVAL_MS : Z
}.

(** The values of the Apollo tree: a 512-slot work wheel and a 64-slot
    assistant wheel at a resolution of 2 ms. *)
Definition apollo_wheel : TimingWheelConstants :=
  {| TIMER_RESOLUTION_MS := 2; TIMER_MAX_INTERVAL_MS := 512 * 64 * 2 |}.

(** ** Data *)

(** [cb_user] names the user's [std::function]; [cb_weak] is the captured
    [task_weak_ptr]; [cb_oneshot] tells which of the two lambdas it is. *)
Record Closure := {
  cb_oneshot : bool;
  cb_user : nat;
  cb_weak : nat
}.

(** Modelled from the spec: the declaration of [TimerTask]
    (cyber/timer/timer_task.h): an unsigned 64-bit id, unsigned [interval_ms]
    and [next_fire_duration_ms] (64 bits wide here), a zero-sentinel
    [last_execute_time_ns], a signed 64-bit [accumulated_error_ns], the
    callback and the mutex, with every counter starting at 0. *)
Record TimerTask := {
  task_timer_id : Z;
  callback : option Closure;
  interval_ms : Z;
  next_fire_duration_ms : Z;
  accumulated_error_ns : Z;
  last_execute_time_ns : Z;
  mutex : bool
}.

Definition new_TimerTask (id : Z) : TimerTask :=
  {| task_timer_id := id; callback := None; interval_ms := 0;
     next_fire_duration_ms := 0; accumulated_error_ns := 0;
     last_execute_time_ns := 0; mutex := false |}.

Definition set_callback (c : Closure) (t : TimerTask) : TimerTask :=
  {| task_timer_id := task_timer_id t; callback := Some c;
     interval_ms := interval_ms t;
     next_fire_duration_ms := next_fire_duration_ms t;
     accumulated_error_ns := accumulated_error_ns t;
     last_execute_time_ns := last_execute_time_ns t; mutex := mutex t |}.

Definition set_interval_ms (v : Z) (t : TimerTask) : TimerTask :=
  {| task_timer_id := task_timer_id t; callback := callback t;
     interval_ms := v;
     next_fire_duration_ms := next_fire_duration_ms t;
     accumulated_error_ns := accumulated_error_ns t;
     last_execute_time_ns := last_execute_time_ns t; mutex := mutex t |}.

Definition set_next_fire_duration_ms (v : Z) (t : TimerTask) : TimerTask :=
  {| task_timer_id := task_timer_id t; callback := callback t;
     interval_ms := interval_ms t;
     next_fire_duration_ms := v;
     accumulated_error_ns := accumulated_error_ns t;
     last_execute_time_ns := last_execute_time_ns t; mutex := mutex t |}.

Definition set_accumulated_error_ns (v : Z) (t : TimerTask) : TimerTask :=
  {| task_timer_id := task_timer_id t; callback := callback t;
     interval_ms := interval_ms t;
     next_fire_duration_ms := next_fire_duration_ms t;
     accumulated_error_ns := v;
     last_execute_time_ns := last_execute_time_ns t; mutex := mutex t |}.

Definition set_last_execute_time_ns (v : Z) (t : TimerTask) : TimerTask :=
  {| task_timer_id := task_timer_id t; callback := callback t;
     interval_ms := interval_ms t;
     next_fire_duration_ms := next_fire_duration_ms t;
     accumulated_error_ns := accumulated_error_ns t;
     last_execute_time_ns := v; mutex := mutex t |}.

Definition set_mutex (v : bool) (t : TimerTask) : TimerTask :=
  {| task_timer_id := task_timer_id t; callback := callback t;
     interval_ms := interval_ms t;
     next_fire_duration_ms := next_fire_duration_ms t;
     accumulated_error_ns := accumulated_error_ns t;
     last_execute_time_ns := last_execute_time_ns t; mutex := v |}.

(** A task object together with the use count of its control block. *)
Record Cell := {
  obj : TimerTask;
  use_count : nat
}.

Inductive Event :=
| EvErrorPeriodZero                 (* AERROR "Max interval must great than 0" *)
| EvErrorPeriodTooLarge             (* AERROR "Max interval must less than ..." *)
| EvInfoStart (id : Z)              (* AINFO "start timer [id]" *)
| EvInfoStop (id : Z)               (* AINFO "stop timer, the timer_id: id" *)
| EvUser (cb : nat).                (* the user's callback ran *)

(** What [TimingWheel::AddTask] was handed: the task, the delay it asked
    for and the callback to run when the delay has passed. *)
Record Submission := {
  sub_task : nat;
  sub_delay_ms : Z;
  sub_callback : option Closure
}.

Record Sys := {
  reality_mode : bool;                (* GlobalData::IsRealityMode() *)
  global_timer_id : Z;
  heap : gmap nat Cell;
  next_addr : nat;                    (* control blocks are never reused *)
  wheel : list Submission;            (* pending submissions, oldest first *)
  trace : list Event                  (* oldest first *)
}.

Definition set_heap (h : gmap nat Cell) (s : Sys) : Sys :=
  {| reality_mode := reality_mode s; global_timer_id := global_timer_id s;
     heap := h; next_addr := next_addr s; wheel := wheel s; trace := trace s |}.

Definition emit (e : Event) (s : Sys) : Sys :=
  {| reality_mode := reality_mode s; global_timer_id := global_timer_id s;
     heap := heap s; next_addr := next_addr s; wheel := wheel s;
     trace := trace s ++ [e] |}.

Record TimerOption := {
  period : Z;                         (* uint32_t, milliseconds *)
  opt_callback : nat;
  oneshot : bool
}.

Record Timer := {
  timer_id_ : Z;
  timer_opt_ : TimerOption;
  task_ : option nat;                 (* std::shared_ptr<TimerTask> *)
  started_ : bool                     (* std::atomic<bool> *)
}.

Definition set_task_ (v : option nat) (t : Timer) : Timer :=
  {| timer_id_ := timer_id_ t; timer_opt_ := timer_opt_ t; task_ := v;
     started_ := started_ t |}.

Definition set_started_ (v : bool) (t : Timer) : Timer :=
  {| timer_id_ := timer_id_ t; timer_opt_ := timer_opt_ t; task_ := task_ t;
     started_ := v |}.

(** ** Shared and weak pointers, the mutex *)

(** [new TimerTask(id)] held by one [shared_ptr]. *)
Definition make_shared (t : TimerTask) (s : Sys) : nat * Sys :=
  let a := next_addr s in
  (a, {| reality_mode := reality_mode s; global_timer_id := global_timer_id s;
         heap := <[a := {| obj := t; use_count := 1 |}]> (heap s);
         next_addr := S a; wheel := wheel s; trace := trace s |}).

(** Copying a [shared_ptr]. *)
Definition shared_copy (a : nat) (s : Sys) : Sys :=
  set_heap (alter (fun c => {| obj := obj c; use_count := S (use_count c) |}) a (heap s)) s.

(** Destroying or resetting a [shared_ptr]: the last one deletes the object. *)
Definition shared_release (a : nat) (s : Sys) : Sys :=
  match heap s !! a with
  | Some c =>
      match use_count c with
      | S (S n) => set_heap (<[a := {| obj := obj c; use_count := S n |}]> (heap s)) s
      | _ => set_heap (delete a (heap s)) s
      end
  | None => s
  end.

(** [weak_ptr::lock()]: a new [shared_ptr] when the object is still there. *)
Definition weak_lock (a : nat) (s : Sys) : option Sys :=
  match heap s !! a with
  | Some _ => Some (shared_copy a s)
  | None => None
  end.

Definition update_task (a : nat) (f : TimerTask -> TimerTask) (s : Sys) : Sys :=
  set_heap (alter (fun c => {| obj := f (obj c); use_count := use_count c |}) a (heap s)) s.

(** Taking [task->mutex]: [None] when the caller has to wait. *)
Definition mutex_acquire (a : nat) (s : Sys) : option Sys :=
  match heap s !! a with
  | Some c => if mutex (obj c) then None else Some (update_task a (set_mutex true) s)
  | None => None
  end.

Definition mutex_release (a : nat) (s : Sys) : Sys := update_task a (set_mutex false) s.

(** Modelled from the spec: [TimingWheel::AddTask] (cyber/timer/timing_wheel.cc):
    the submission asks for one later invocation of the task's callback after
    [next_fire_duration_ms]; the queue does not keep the task alive. *)
Definition AddTask (a : nat) (s : Sys) : Sys :=
  match heap s !! a with
  | Some c =>
      {| reality_mode := reality_mode s; global_timer_id := global_timer_id s;
         heap := heap s; next_addr := next_addr s;
         wheel := wheel s ++ [{| sub_task := a;
                                 sub_delay_ms := next_fire_duration_ms (obj c);
                                 sub_callback := callback (obj c) |}];
         trace := trace s |}
  | None => s
  end.

(** [task->timer_id_] as the log line of [Start] reads it. *)
Definition task_id_at (a : nat) (s : Sys) : Z :=
  match heap s !! a with
  | Some c => task_timer_id (obj c)
  | None => 0
  end.

(** ** The timer *)

Definition GenerateTimerId (s : Sys) : Z * Sys :=
  (global_timer_id s,
   {| reality_mode := reality_mode s;
      global_timer_id := wrap64 (global_timer_id s + 1);
      heap := heap s; next_addr := next_addr s; wheel := wheel s;
      trace := trace s |}).

(** [Timer::Timer(uint32_t period, std::function<void()> callback, bool oneshot)] *)
Definition Timer_new (p : Z) (cb : nat) (os : bool) (s : Sys) : Timer * Sys :=
  let '(id, s1) := GenerateTimerId s in
  ({| timer_id_ := id;
      timer_opt_ := {| period := p; opt_callback := cb; oneshot := os |};
      task_ := None; started_ := false |}, s1).

(** [Timer::Timer(TimerOption opt)] *)
Definition Timer_of_option (opt : TimerOption) (s : Sys) : Timer * Sys :=
  let '(id, s1) := GenerateTimerId s in
  ({| timer_id_ := id; timer_opt_ := opt; task_ := None; started_ := false |}, s1).

Definition SetTimerOption (opt : TimerOption) (t : Timer) : Timer :=
  {| timer_id_ := timer_id_ t; timer_opt_ := opt; task_ := task_ t;
     started_ := started_ t |}.

(** How a call of the user's callback ends: it returns, and the lambda then
    reads the clock a second time ([end_], line 87), or it throws.  Neither
    lambda catches anything: an exception unwinds the lambda, which destroys
    the [lock_guard] and the local [shared_ptr], and goes on to the caller. *)
Inductive Ending :=
| Returned (end_ : Z)
| Threw.

Section WithWheel.
Context {W : TimingWheelConstants}.

(** Lines 88-132: what the periodic lambda does to the task between the
    return of the user's callback and the resubmission.  [start] and [end_]
    are the two readings of [Time::MonoTime().ToNanosecond()]. *)
Definition accumulate_error (start : Z) (t : TimerTask) : TimerTask :=
  let t1 :=
    if last_execute_time_ns t =? 0 then set_last_execute_time_ns start t
    else set_accumulated_error_ns
           (to_int64 (accumulated_error_ns t
                      + wrap64 (start - last_execute_time_ns t
                                - wrap64 (interval_ms t * 1000000)))) t in
  set_last_execute_time_ns start t1.

Definition next_fire (execute_time_ms : Z) (t : TimerTask) : TimerTask :=
  if interval_ms t <=? execute_time_ms then
    set_next_fire_duration_ms TIMER_RESOLUTION_MS t
  else
    let accumulated_error_ms := ns_to_ms (accumulated_error_ns t) in
    if accumulated_error_ms
       <=? to_int64 (wrap64 (interval_ms t - execute_time_ms - TIMER_RESOLUTION_MS)) then
      set_next_fire_duration_ms
        (wrap64 (interval_ms t - execute_time_ms - accumulated_error_ms)) t
    else
      set_next_fire_duration_ms TIMER_RESOLUTION_MS t.

(** The decision in the words of the specification, on the task as the
    accumulation step left it and with the rounding of the exact quotient;
    [next_fire] is compared with it. *)
Definition claimed_next_fire (execute_time_ms : Z) (t : TimerTask) : Z :=
  if interval_ms t <=? execute_time_ms then TIMER_RESOLUTION_MS
  else
    let accumulated_error_ms := exact_ns_to_ms (accumulated_error_ns t) in
    if accumulated_error_ms <=? interval_ms t - execute_time_ms - TIMER_RESOLUTION_MS then
      interval_ms t - execute_time_ms - accumulated_error_ms
    else TIMER_RESOLUTION_MS.

Definition execute_time_ms_of (start end_ : Z) : Z :=
  let execute_time_ns := wrap64 (end_ - start) in
  wrap64 (ns_to_ms execute_time_ns).

Definition drift_compensate (start end_ : Z) (t : TimerTask) : TimerTask :=
  next_fire (execute_time_ms_of start end_) (accumulate_error start t).

(** The lambda of the one-shot branch, lines 70-76.  Nothing follows the
    user's callback but the two destructors, which run whether it returns
    or throws: the state is the same in both cases. *)
Definition oneshot_callback (cb w : nat) (s : Sys) : option Sys :=
  match weak_lock w s with
  | Some s1 =>
      s2 ← mutex_acquire w s1;
      let s3 := emit (EvUser cb) s2 in
      Some (shared_release w (mutex_release w s3))
  | None => Some s
  end.

(** The lambda of the periodic branch, lines 79-135.  When the user's
    callback throws at line 86, lines 87-134 do not run: no error is
    accumulated, [last_execute_time_ns] and [next_fire_duration_ms] keep
    their values and the task is not submitted again. *)
Definition periodic_callback (cb w : nat) (start : Z) (ending : Ending) (s : Sys)
    : option Sys :=
  match weak_lock w s with
  | None => Some s
  | Some s1 =>
      s2 ← mutex_acquire w s1;
      let s3 := emit (EvUser cb) s2 in
      match ending with
      | Returned end_ =>
          let s4 := update_task w (drift_compensate start end_) s3 in
          let s5 := AddTask w s4 in
          Some (shared_release w (mutex_release w s5))
      | Threw => Some (shared_release w (mutex_release w s3))
      end
  end.

(** Calling the [std::function] stored in the task. *)
Definition invoke (c : Closure) (start : Z) (ending : Ending) (s : Sys) : option Sys :=
  if cb_oneshot c then oneshot_callback (cb_user c) (cb_weak c) s
  else periodic_callback (cb_user c) (cb_weak c) start ending s.

Definition InitTimerTask (t : Timer) (s : Sys) : bool * Timer * Sys :=
  if period (timer_opt_ t) =? 0 then (false, t, emit EvErrorPeriodZero s)
  else if TIMER_MAX_INTERVAL_MS <=? period (timer_opt_ t) then
    (false, t, emit EvErrorPeriodTooLarge s)
  else
    let '(a, s1) := make_shared (new_TimerTask (timer_id_ t)) s in
    let s2 := match task_ t with Some old => shared_release old s1 | None => s1 end in
    let t1 := set_task_ (Some a) t in
    let s3 := update_task a (set_interval_ms (period (timer_opt_ t))) s2 in
    let s4 := update_task a (fun k => set_next_fire_duration_ms (interval_ms k) k) s3 in
    let c := {| cb_oneshot := oneshot (timer_opt_ t);
                cb_user := opt_callback (timer_opt_ t);
                cb_weak := a |} in
    (true, t1, update_task a (set_callback c) s4).

Definition Start (t : Timer) (s : Sys) : Timer * Sys :=
  if negb (reality_mode s) then (t, s)
  else
    let was := started_ t in
    let t1 := set_started_ true t in
    if negb was then
      match InitTimerTask t1 s with
      | (true, t2, s1) =>
          match task_ t2 with
          | Some a =>
              let s2 := AddTask a s1 in
              (t2, emit (EvInfoStart (task_id_at a s2)) s2)
          | None => (t2, s1)
          end
      | (false, t2, s1) => (t2, s1)
      end
    else (t1, s).

(** [None] when [Stop] has to wait for the task's mutex. *)
Definition Stop (t : Timer) (s : Sys) : option (Timer * Sys) :=
  let was := started_ t in
  let t1 := set_started_ false t in
  if was then
    match task_ t1 with
    | Some a =>
        let s1 := emit (EvInfoStop (timer_id_ t1)) s in
        let s2 := shared_copy a s1 in                 (* tmp_task *)
        s3 ← mutex_acquire a s2;
        let t2 := set_task_ None t1 in
        let s4 := shared_release a s3 in              (* task_.reset() *)
        let s5 := mutex_release a s4 in
        Some (t2, shared_release a s5)                (* ~tmp_task *)
    | None => Some (t1, s)
    end
  else Some (t1, s).

(** Modelled from the spec: the dispatch of the timing wheel
    (cyber/timer/timing_wheel.cc): the oldest submission is taken off the
    queue and its callback is invoked once.  An exception that leaves the
    callback ends this dispatch and no more: the wheel goes on with the
    submissions that are left. *)
Definition fire (start : Z) (ending : Ending) (s : Sys) : option Sys :=
  match wheel s with
  | [] => Some s
  | sub :: rest =>
      let s1 := {| reality_mode := reality_mode s;
                   global_timer_id := global_timer_id s; heap := heap s;
                   next_addr := next_addr s; wheel := rest; trace := trace s |} in
      match sub_callback sub with
      | Some c => invoke c start ending s1
      | None => Some s1
      end
  end.

End WithWheel.

(** [Timer::~Timer()] *)
Definition Timer_destroy (t : Timer) (s : Sys) : option (Timer * Sys) :=
  match task_ t with
  | Some _ => Stop t s
  | None => Some (t, s)
  end.

(** ** [Stop] against a callback on another thread

    The statements of [Timer::Stop] and of the lambdas, one atomic operation
    per step, run by two threads under an arbitrary schedule.  A thread that
    waits for the mutex has no step. *)

Inductive StopPc :=
| SpEntry                 (* before [started_.exchange(false) && task_] *)
| SpCopy (a : nat)        (* before [auto tmp_task = task_] *)
| SpLock (a : nat)        (* before the [lock_guard] on [tmp_task->mutex] *)
| SpReset (a : nat)       (* holding the mutex, before [task_.reset()] *)
| SpUnlock (a : nat)      (* before the end of the guarded block *)
| SpDrop (a : nat)        (* before [tmp_task] goes out of scope *)
| SpReturned.

Inductive CbPc :=
| CpEntry                 (* before [task_weak_ptr.lock()] *)
| CpLock                  (* holding [task], before the [lock_guard] *)
| CpUser                  (* holding the mutex, the user's callback running *)
| CpUpdate                (* the user's callback has returned (periodic lambda) *)
| CpUnlock                (* before the [lock_guard] is destroyed *)
| CpDrop                  (* before [task] is destroyed *)
| CpReturned.

Record Conc := {
  c_timer : Timer;
  c_sys : Sys;
  c_stop : StopPc;
  c_cb : CbPc
}.

Inductive Tid := TStop | TCallback.

Section Interleaving.
Context {W : TimingWheelConstants}.
Variable c : Closure.
Variable start : Z.
Variable ending : Ending.

Definition step_stop (x : Conc) : option Conc :=
  let t := c_timer x in
  let s := c_sys x in
  let k := c_cb x in
  match c_stop x with
  | SpEntry =>
      let was := started_ t in
      let t1 := set_started_ false t in
      if was then
        match task_ t1 with
        | Some a =>
            Some {| c_timer := t1; c_sys := emit (EvInfoStop (timer_id_ t1)) s;
                    c_stop := SpCopy a; c_cb := k |}
        | None => Some {| c_timer := t1; c_sys := s; c_stop := SpReturned; c_cb := k |}
        end
      else Some {| c_timer := t1; c_sys := s; c_stop := SpReturned; c_cb := k |}
  | SpCopy a =>
      Some {| c_timer := t; c_sys := shared_copy a s; c_stop := SpLock a; c_cb := k |}
  | SpLock a =>
      s1 ← mutex_acquire a s;
      Some {| c_timer := t; c_sys := s1; c_stop := SpReset a; c_cb := k |}
  | SpReset a =>
      Some {| c_timer := set_task_ None t; c_sys := shared_release a s;
              c_stop := SpUnlock a; c_cb := k |}
  | SpUnlock a =>
      Some {| c_timer := t; c_sys := mutex_release a s; c_stop := SpDrop a; c_cb := k |}
  | SpDrop a =>
      Some {| c_timer := t; c_sys := shared_release a s; c_stop := SpReturned; c_cb := k |}
  | SpReturned => None
  end.

Definition step_cb (x : Conc) : option Conc :=
  let t := c_timer x in
  let s := c_sys x in
  let p := c_stop x in
  let w := cb_weak c in
  match c_cb x with
  | CpEntry =>
      match weak_lock w s with
      | Some s1 => Some {| c_timer := t; c_sys := s1; c_stop := p; c_cb := CpLock |}
      | None => Some {| c_timer := t; c_sys := s; c_stop := p; c_cb := CpReturned |}
      end
  | CpLock =>
      s1 ← mutex_acquire w s;
      Some {| c_timer := t; c_sys := s1; c_stop := p; c_cb := CpUser |}
  | CpUser =>
      Some {| c_timer := t; c_sys := emit (EvUser (cb_user c)) s; c_stop := p;
              c_cb := if cb_oneshot c then CpUnlock
                      else match ending with
                           | Returned _ => CpUpdate
                           | Threw => CpUnlock
                           end |}
  | CpUpdate =>
      Some {| c_timer := t;
              c_sys := match ending with
                       | Returned end_ =>
                           AddTask w (update_task w (drift_compensate start end_) s)
                       | Threw => s
                       end;
              c_stop := p; c_cb := CpUnlock |}
  | CpUnlock =>
      Some {| c_timer := t; c_sys := mutex_release w s; c_stop := p; c_cb := CpDrop |}
  | CpDrop =>
      Some {| c_timer := t; c_sys := shared_release w s; c_stop := p; c_cb := CpReturned |}
  | CpReturned => None
  end.

Definition step (i : Tid) (x : Conc) : option Conc :=
  match i with
  | TStop => step_stop x
  | TCallback => step_cb x
  end.

(** The schedule lists which thread moves next; [None] when a thread was
    scheduled that cannot move. *)
Fixpoint run (sched : list Tid) (x : Conc) : option Conc :=
  match sched with
  | [] => Some x
  | i :: rest => y ← step i x; run rest y
  end.

(** The callback holds the mutex: it is between the [lock_guard] and its end. *)
Definition cb_in_flight (k : CbPc) : bool :=
  match k with
  | CpUser | CpUpdate | CpUnlock => true
  | _ => false
  end.

(** The callback holds its [shared_ptr] [task]. *)
Definition cb_holds_task (k : CbPc) : bool :=
  match k with
  | CpLock | CpUser | CpUpdate | CpUnlock | CpDrop => true
  | _ => false
  end.

(** The callback is past its guarded block (or found the task gone). *)
Definition cb_finished (k : CbPc) : bool :=
  match k with
  | CpDrop | CpReturned => true
  | _ => false
  end.

Definition stop_in_critical (p : StopPc) : bool :=
  match p with
  | SpReset _ | SpUnlock _ => true
  | _ => false
  end.

Definition stop_holds_tmp (p : StopPc) : bool :=
  match p with
  | SpLock _ | SpReset _ | SpUnlock _ | SpDrop _ => true
  | _ => false
  end.

(** [Stop] has not taken the mutex yet. *)
Definition stop_before_lock (p : StopPc) : bool :=
  match p with
  | SpEntry | SpCopy _ | SpLock _ => true
  | _ => false
  end.

End Interleaving.

(** ** States of a handle and runs of the system *)

(** A handle that was never started, or was stopped. *)
Definition idle (t : Timer) : Prop := started_ t = false /\ task_ t = None.

(** A started handle whose task [a] is alive, held by the handle alone,
    with a free mutex. *)
Definition running (t : Timer) (s : Sys) (a : nat) : Prop :=
  started_ t = true /\ task_ t = Some a /\
  exists k, heap s !! a = Some {| obj := k; use_count := 1 |} /\ mutex k = false.

(** The task of the handle, if it holds one, is alive and its mutex is free:
    [Stop] does not have to wait. *)
Definition stoppable (t : Timer) (s : Sys) : Prop :=
  match task_ t with
  | Some a => exists k n, heap s !! a = Some {| obj := k; use_count := S n |} /\
                          mutex k = false
  | None => True
  end.

(** [Stop] and the callback are about to be called on a running handle. *)
Definition running_at (a : nat) (x : Conc) : Prop :=
  running (c_timer x) (c_sys x) a /\ c_stop x = SpEntry /\ c_cb x = CpEntry.

(** The handle still holds [task_]: [Stop] is before its [task_.reset()]. *)
Definition handle_holds (p : StopPc) : bool :=
  match p with
  | SpEntry | SpCopy _ | SpLock _ | SpReset _ => true
  | _ => false
  end.

(** The address that [Stop] carries is the task [a]. *)
Definition stop_pc_at (a : nat) (p : StopPc) : Prop :=
  match p with
  | SpEntry | SpReturned => True
  | SpCopy b | SpLock b | SpReset b | SpUnlock b | SpDrop b => b = a
  end.

(** The [shared_ptr]s to the task: [task_], [tmp_task] and the callback's
    [task]. *)
Definition owners (x : Conc) : nat :=
  ((if handle_holds (c_stop x) then 1 else 0)
   + (if stop_holds_tmp (c_stop x) then 1 else 0)
   + (if cb_holds_task (c_cb x) then 1 else 0))%nat.

(** The states that the two threads reach from a running handle: the use
    count is the number of owners, the mutex is held by the one thread
    inside its guarded block, and never by both. *)
Record consistent (a : nat) (x : Conc) : Prop := {
  con_pc : stop_pc_at a (c_stop x);
  con_task : task_ (c_timer x) = if handle_holds (c_stop x) then Some a else None;
  con_started :
    started_ (c_timer x) = match c_stop x with SpEntry => true | _ => false end;
  con_exclusive : stop_in_critical (c_stop x) && cb_in_flight (c_cb x) = false;
  con_heap :
    match owners x with
    | O => heap (c_sys x) !! a = None
    | S n => exists k, heap (c_sys x) !! a = Some {| obj := k; use_count := S n |} /\
                       mutex k = stop_in_critical (c_stop x) || cb_in_flight (c_cb x)
    end
}.

(** The callback holds the mutex and [Stop] has not taken it yet, or the
    callback is past its guarded block. *)
Definition holder_first (x : Conc) : bool :=
  (cb_in_flight (c_cb x) && stop_before_lock (c_stop x)) || cb_finished (c_cb x).

(** The statements that each thread still has to execute. *)
Definition stop_left (p : StopPc) : nat :=
  match p with
  | SpEntry => 6 | SpCopy _ => 5 | SpLock _ => 4 | SpReset _ => 3
  | SpUnlock _ => 2 | SpDrop _ => 1 | SpReturned => 0
  end.

Definition cb_left (k : CbPc) : nat :=
  match k with
  | CpEntry => 6 | CpLock => 5 | CpUser => 4 | CpUpdate => 3
  | CpUnlock => 2 | CpDrop => 1 | CpReturned => 0
  end.

Definition steps_left (x : Conc) : nat := (stop_left (c_stop x) + cb_left (c_cb x))%nat.

(** A process in reality mode in which no timer exists yet. *)
Definition boot : Sys :=
  {| reality_mode := true; global_timer_id := 0; heap := ∅; next_addr := 0;
     wheel := []; trace := [] |}.

(** The callback [c] invoked once per reading of [start], each invocation
    with the ending of the user's callback. *)
Fixpoint invoke_all {W : TimingWheelConstants} (c : Closure)
    (readings : list (Z * Ending)) (s : Sys) : option Sys :=
  match readings with
  | [] => Some s
  | (start, ending) :: rest => s1 ← invoke c start ending s; invoke_all c rest s1
  end.

(** The timing wheel dispatching once per reading. *)
Fixpoint fire_all {W : TimingWheelConstants} (readings : list (Z * Ending)) (s : Sys)
    : option Sys :=
  match readings with
  | [] => Some s
  | (start, ending) :: rest => s1 ← fire start ending s; fire_all rest s1
  end.

(** The clock never goes back: every reading of [start] is at least the
    one before, beginning with [prev]. *)
Fixpoint nondecreasing {A : Type} (prev : Z) (readings : list (Z * A)) : Prop :=
  match readings with
  | [] => True
  | (start, _) :: rest => prev <= start /\ nondecreasing start rest
  end.

(** The last reading of [start] in a run that began after [prev]. *)
Fixpoint last_start {A : Type} (prev : Z) (readings : list (Z * A)) : Z :=
  match readings with
  | [] => prev
  | (start, _) :: rest => last_start start rest
  end.

(** The readings of the invocations in which the user's callback returned. *)
Fixpoint returned (readings : list (Z * Ending)) : list (Z * Z) :=
  match readings with
  | [] => []
  | (start, Returned end_) :: rest => (start, end_) :: returned rest
  | (_, Threw) :: rest => returned rest
  end.

(** A run in which the user's callback returns every time. *)
Definition returning (readings : list (Z * Z)) : list (Z * Ending) :=
  map (fun r => (r.1, Returned r.2)) readings.

(** The user's callback threw in one of the invocations. *)
Fixpoint thrown (readings : list (Z * Ending)) : bool :=
  match readings with
  | [] => false
  | (_, Returned _) :: rest => thrown rest
  | (_, Threw) :: _ => true
  end.

(** The dispatches of a periodic task that find a submission: those up to
    the first one whose user callback throws, that one included. *)
Fixpoint fired (readings : list (Z * Ending)) : nat :=
  match readings with
  | [] => O
  | (_, Returned _) :: rest => S (fired rest)
  | (_, Threw) :: _ => 1%nat
  end.

(** The task behind an address, when it is alive. *)
Definition task_at (a : nat) (s : Sys) : option TimerTask := obj <$> heap s !! a.

(** How often the user's callback [cb] ran. *)
Definition is_user_call (cb : nat) (e : Event) : bool :=
  match e with
  | EvUser c => Nat.eqb c cb
  | _ => false
  end.

Definition user_calls (cb : nat) (s : Sys) : nat :=
  length (List.filter (is_user_call cb) (trace s)).

(** ** Runs of calls *)

(** The system after [n] timers were constructed: a constructor changes
    the system through [GenerateTimerId] only. *)
Fixpoint after_ids (n : nat) (s : Sys) : Sys :=
  match n with
  | O => s
  | S m => (GenerateTimerId (after_ids m s)).2
  end.

(** The task after the periodic callback ran once per pair of readings, the
    user's callback returning every time. *)
Fixpoint firings {W : TimingWheelConstants} (readings : list (Z * Z))
    (k : TimerTask) : TimerTask :=
  match readings with
  | [] => k
  | (start, end_) :: rest => firings rest (drift_compensate start end_ k)
  end.

(** What the owner of a handle and the timing wheel can do, one after the
    other. *)
Inductive Call :=
| CallStart
| CallStop
| CallSetTimerOption (opt : TimerOption)
| CallFire (start : Z) (ending : Ending).

Definition call {W : TimingWheelConstants} (c : Call) (t : Timer) (s : Sys)
    : option (Timer * Sys) :=
  match c with
  | CallStart => Some (Start t s)
  | CallStop => Stop t s
  | CallSetTimerOption opt => Some (SetTimerOption opt t, s)
  | CallFire start ending => s1 ← fire start ending s; Some (t, s1)
  end.

Fixpoint calls {W : TimingWheelConstants} (cs : list Call) (t : Timer) (s : Sys)
    : option (Timer * Sys) :=
  match cs with
  | [] => Some (t, s)
  | c :: rest => '(t1, s1) ← call c t s; calls rest t1 s1
  end.

(** The store holds the task of the handle and nothing else; a handle that
    is not started holds no task. *)
Definition sole_owner (t : Timer) (s : Sys) : Prop :=
  (started_ t = false -> task_ t = None) /\
  match task_ t with
  | Some a => exists k, heap s = {[a := {| obj := k; use_count := 1 |}]} /\
                        mutex k = false
  | None => heap s = ∅
  end.

(** ** Sample handles, with the constants of the Apollo tree *)

(** A handle with a period of [p] ms and the user callback number 7. *)
Definition sample_timer (p : Z) (os : bool) : Timer * Sys := Timer_new p 7 os boot.

(** The same handle after [Start]. *)
Definition sample_started (p : Z) (os : bool) : Timer * Sys :=
  Start (W := apollo_wheel) (sample_timer p os).1 (sample_timer p os).2.

(** The callback that [Start] installs in the task of the sample handle. *)
Definition sample_closure (os : bool) : Closure :=
  {| cb_oneshot := os; cb_user := 7; cb_weak := 0 |}.

(** The task of the sample handle as [Start] leaves it. *)
Definition sample_task (p : Z) (os : bool) : TimerTask :=
  {| task_timer_id := 0; callback := Some (sample_closure os); interval_ms := p;
     next_fire_duration_ms := p; accumulated_error_ns := 0;
     last_execute_time_ns := 0; mutex := false |}.

(** The system after the callback of the started sample handle (period
    100 ms, periodic) was invoked once per reading. *)
Definition sample_after (readings : list (Z * Ending)) : Sys :=
  default boot (invoke_all (W := apollo_wheel) (sample_closure false) readings
                  (sample_started 100 false).2).

(** Readings of a clock that never goes back: a first firing at 1 s, 262148
    more at the same reading, and one 65.530500001 s later; the user's
    callback takes no time. *)
Definition early_run : list (Z * Z) :=
  (1000000000, 1000000000) :: repeat (1000000000, 1000000000) (Z.to_nat 262148)
  ++ [(66530500001, 66530500001)].

(** A process outside reality mode in which no timer exists yet. *)
Definition boot_replay : Sys :=
  {| reality_mode := false; global_timer_id := 0; heap := ∅; next_addr := 0;
     wheel := []; trace := [] |}.

(** [Stop] and an invocation of the periodic callback are about to run on
    the started sample handle. *)
Definition sample_race : Conc :=
  {| c_timer := (sample_started 100 false).1; c_sys := (sample_started 100 false).2;
     c_stop := SpEntry; c_cb := CpEntry |}.

(** * Properties *)

(** ** Integers and rounding *)

Lemma wrap64_range z : 0 <= wrap64 z < 2 ^ 64.
Proof. unfold wrap64. apply Z.mod_pos_bound. lia. Qed.

Lemma wrap64_small z : 0 <= z < 2 ^ 64 -> wrap64 z = z.
Proof. intros Hz. unfold wrap64. apply Z.mod_small. exact Hz. Qed.

Lemma to_int64_small z : - 2 ^ 63 <= z < 2 ^ 63 -> to_int64 z = z.
Proof.
  intros Hz. unfold to_int64. rewrite Z.mod_small by lia. lia.
Qed.

Lemma to_int64_wrap64 z : to_int64 (wrap64 z) = to_int64 z.
Proof.
  unfold to_int64, wrap64. f_equal.
  rewrite Zplus_mod_idemp_l. reflexivity.
Qed.

Lemma to_int64_shift z k : to_int64 (z + k * 2 ^ 64) = to_int64 z.
Proof.
  unfold to_int64. f_equal.
  replace (z + k * 2 ^ 64 + 2 ^ 63) with (z + 2 ^ 63 + k * 2 ^ 64) by lia.
  apply Z_mod_plus_full.
Qed.

Lemma wrap64_decomp z : wrap64 z = z + (- (z / 2 ^ 64)) * 2 ^ 64.
Proof. unfold wrap64. pose proof (Z_div_mod_eq_full z (2 ^ 64)). lia. Qed.

Lemma to_int64_add_wrap64 a b : to_int64 (a + wrap64 b) = to_int64 (a + b).
Proof. rewrite wrap64_decomp, Z.add_assoc. apply to_int64_shift. Qed.

(** The drift added on a firing, as the source computes it, is the signed
    difference taken modulo 2^64. *)
Lemma accumulated_sum_wrap acc start last interval :
  to_int64 (acc + wrap64 (start - last - wrap64 (interval * 1000000)))
  = to_int64 (acc + ((start - last) - interval * 1000000)).
Proof.
  rewrite to_int64_add_wrap64, (wrap64_decomp (interval * 1000000)).
  set (q := interval * 1000000 / 2 ^ 64).
  replace (acc + (start - last - (interval * 1000000 + - q * 2 ^ 64)))
    with (acc + (start - last - interval * 1000000) + q * 2 ^ 64) by lia.
  apply to_int64_shift.
Qed.

Lemma to_int64_decomp z : to_int64 z = z + (- ((z + 2 ^ 63) / 2 ^ 64)) * 2 ^ 64.
Proof.
  unfold to_int64. pose proof (Z_div_mod_eq_full (z + 2 ^ 63) (2 ^ 64)). lia.
Qed.

Lemma to_int64_add_to_int64 a b : to_int64 (to_int64 a + b) = to_int64 (a + b).
Proof.
  rewrite (to_int64_decomp a).
  replace (a + - ((a + 2 ^ 63) / 2 ^ 64) * 2 ^ 64 + b)
    with (a + b + - ((a + 2 ^ 63) / 2 ^ 64) * 2 ^ 64) by lia.
  apply to_int64_shift.
Qed.

Lemma to_int64_range z : - 2 ^ 63 <= to_int64 z < 2 ^ 63.
Proof.
  unfold to_int64. pose proof (Z.mod_pos_bound (z + 2 ^ 63) (2 ^ 64) ltac:(lia)). lia.
Qed.

Lemma in_int64_spec z : in_int64 z = true <-> - 2 ^ 63 <= z < 2 ^ 63.
Proof. unfold in_int64, INT64_MIN, INT64_MAX. rewrite andb_true_iff, !Z.leb_le. lia. Qed.

Lemma llround_range f : - 2 ^ 63 <= llround f < 2 ^ 63.
Proof.
  unfold llround. destruct (round_half_away f) as [r|].
  - destruct (in_int64 r) eqn:E.
    + apply in_int64_spec. exact E.
    + unfold INT64_MIN. lia.
  - unfold INT64_MIN. lia.
Qed.

Lemma ns_to_ms_range ns : - 2 ^ 63 <= ns_to_ms ns < 2 ^ 63.
Proof. apply llround_range. Qed.

(** [round_half_away] finds the nearest integer, halves away from zero. *)
Lemma round_half_away_nearest f r :
  round_half_away f = Some r -> nearest_half_away f r.
Proof.
  destruct f as [s| | |s m e]; cbn; try discriminate.
  - intros [= <-]. reflexivity.
  - intros [= <-].
    destruct (Z.leb_spec 0 e) as [He|He].
    + rewrite (Z.max_r (- e) 0), (Z.max_l e 0) by lia.
      assert (0 < 2 ^ e) by (apply Z.pow_pos_nonneg; lia).
      assert (Hm : 0 <= Z.pos m * 2 ^ e) by nia.
      change (2 ^ 0) with 1.
      destruct s.
      * rewrite Z.abs_opp, Z.abs_eq by exact Hm. split; lia.
      * rewrite Z.abs_eq by exact Hm. split; lia.
    + rewrite (Z.max_l (- e) 0), (Z.max_r e 0) by lia.
      change (2 ^ 0) with 1.
      replace (- e + 1) with (Z.succ (- e)) by lia.
      rewrite Z.pow_succ_r by lia.
      set (d := 2 ^ (- e)).
      assert (Hd : 0 < d) by (apply Z.pow_pos_nonneg; lia).
      pose proof (Z.div_mod (2 * Z.pos m + d) (2 * d) ltac:(lia)) as Hq.
      pose proof (Z.mod_pos_bound (2 * Z.pos m + d) (2 * d) ltac:(lia)) as Hr.
      set (q := (2 * Z.pos m + d) / (2 * d)) in *.
      assert (Hq0 : 0 <= q) by (apply Z.div_pos; lia).
      destruct s.
      * rewrite Z.abs_opp, Z.abs_eq by exact Hq0. split; nia.
      * rewrite Z.abs_eq by exact Hq0. split; nia.
Qed.

Lemma nearest_half_away_unique f r r' :
  nearest_half_away f r -> nearest_half_away f r' -> r = r'.
Proof.
  destruct f as [s| | |s m e]; cbn; try tauto.
  - congruence.
  - set (d := 2 ^ Z.max (- e) 0).
    assert (Hd : 0 < d) by (apply Z.pow_pos_nonneg; lia).
    intros [Hs H] [Hs' H'].
    assert (E : Z.abs r = Z.abs r') by nia.
    destruct s; lia.
Qed.

(** ** The quotient is a finite double

    Bounds on the operations of [SpecFloat] at precision 53: the number of
    binary digits of the mantissa plus the exponent bounds the magnitude,
    and rounding to the format raises it by one at most. *)

Lemma digits2_pos_bounds p :
  2 ^ (Z.pos (digits2_pos p) - 1) <= Z.pos p < 2 ^ Z.pos (digits2_pos p).
Proof.
  induction p as [p IH|p IH|]; cbn [digits2_pos]; [| |cbn; lia];
    rewrite Pos2Z.inj_succ;
    replace (Z.succ (Z.pos (digits2_pos p)) - 1)
      with (Z.succ (Z.pos (digits2_pos p) - 1)) by lia;
    rewrite !Z.pow_succ_r by lia;
    generalize dependent (2 ^ (Z.pos (digits2_pos p) - 1));
    generalize dependent (2 ^ Z.pos (digits2_pos p)); intros; lia.
Qed.

Lemma Zdigits2_nonneg m : 0 <= Zdigits2 m.
Proof. destruct m; cbn; lia. Qed.

Lemma Zdigits2_lt m : 0 <= m -> m < 2 ^ Zdigits2 m.
Proof.
  destruct m as [|p|p]; cbn [Zdigits2]; intros H; [cbn; lia| |lia].
  apply digits2_pos_bounds.
Qed.

Lemma Zdigits2_le m k : 0 <= m -> 0 <= k -> m < 2 ^ k -> Zdigits2 m <= k.
Proof.
  destruct m as [|p|p]; cbn [Zdigits2]; intros H Hk Hlt; [lia| |lia].
  destruct (Z_le_gt_dec (Z.pos (digits2_pos p)) k) as [|Hgt]; [assumption|].
  exfalso. pose proof (digits2_pos_bounds p) as [Hlo _].
  assert (2 ^ k <= 2 ^ (Z.pos (digits2_pos p) - 1)) by (apply Z.pow_le_mono_r; lia).
  lia.
Qed.

Lemma shr_1_m mrs : 0 <= shr_m mrs -> shr_m (shr_1 mrs) = shr_m mrs / 2.
Proof.
  destruct mrs as [m r s]. cbn [shr_m]. intros H.
  destruct m as [|[p|p|]|p]; cbn [shr_1 shr_m]; try lia.
  - reflexivity.
  - rewrite (Pos2Z.inj_xI p). apply Z.div_unique with 1; lia.
  - rewrite (Pos2Z.inj_xO p). apply Z.div_unique with 0; lia.
  - reflexivity.
Qed.

Lemma shr_1_nonneg mrs : 0 <= shr_m mrs -> 0 <= shr_m (shr_1 mrs).
Proof. intros H. rewrite shr_1_m by exact H. apply Z.div_pos; lia. Qed.

Lemma iter_shr_1_m p : forall mrs,
  0 <= shr_m mrs ->
  shr_m (SpecFloat.iter_pos shr_1 p mrs) = shr_m mrs / 2 ^ Z.pos p.
Proof.
  induction p as [p IH|p IH|]; intros mrs H; cbn [SpecFloat.iter_pos].
  - assert (H1 : 0 <= shr_m (shr_1 mrs)) by (apply shr_1_nonneg; exact H).
    assert (H2 : 0 <= shr_m (SpecFloat.iter_pos shr_1 p (shr_1 mrs))).
    { rewrite IH by exact H1. apply Z.div_pos; [exact H1|]. apply Z.pow_pos_nonneg; lia. }
    rewrite IH by exact H2. rewrite IH by exact H1. rewrite shr_1_m by exact H.
    assert (Hp : 0 < 2 ^ Z.pos p) by (apply Z.pow_pos_nonneg; lia).
    rewrite !Z.div_div by lia.
    f_equal. rewrite (Pos2Z.inj_xI p), Z.pow_add_r, Z.pow_twice_r by lia.
    change (2 ^ 1) with 2. ring.
  - assert (H2 : 0 <= shr_m (SpecFloat.iter_pos shr_1 p mrs)).
    { rewrite IH by exact H. apply Z.div_pos; [exact H|]. apply Z.pow_pos_nonneg; lia. }
    rewrite IH by exact H2. rewrite IH by exact H.
    assert (Hp : 0 < 2 ^ Z.pos p) by (apply Z.pow_pos_nonneg; lia).
    rewrite Z.div_div by lia.
    f_equal. rewrite (Pos2Z.inj_xO p), Z.pow_twice_r. reflexivity.
  - rewrite shr_1_m by exact H. reflexivity.
Qed.

Lemma shr_record_of_loc_m m l : shr_m (shr_record_of_loc m l) = m.
Proof. destruct l as [|[| |]]; reflexivity. Qed.

(** After the shift to the exponent of the format the mantissa has at most
    53 digits, and the magnitude has not grown. *)
Lemma shr_fexp_bound m e l B :
  0 <= m -> Zdigits2 m + e <= B -> -1074 <= B ->
  0 <= shr_m (fst (shr_fexp 53 1024 m e l)) /\
  Zdigits2 (shr_m (fst (shr_fexp 53 1024 m e l))) <= 53 /\
  Zdigits2 (shr_m (fst (shr_fexp 53 1024 m e l))) + snd (shr_fexp 53 1024 m e l) <= B.
Proof.
  intros Hm HB Hmin. unfold shr_fexp, shr.
  set (d := Zdigits2 m) in *.
  pose proof (Zdigits2_nonneg m) as Hd. fold d in Hd.
  assert (Hf : fexp 53 1024 (d + e) = Z.max (d + e - 53) (-1074)) by reflexivity.
  destruct (fexp 53 1024 (d + e) - e) as [|n|n] eqn:En; cbn [fst snd].
  - rewrite shr_record_of_loc_m. fold d. lia.
  - rewrite iter_shr_1_m by (rewrite shr_record_of_loc_m; exact Hm).
    rewrite shr_record_of_loc_m.
    assert (Hp : 0 < 2 ^ Z.pos n) by (apply Z.pow_pos_nonneg; lia).
    assert (Hq : 0 <= m / 2 ^ Z.pos n) by (apply Z.div_pos; lia).
    split; [exact Hq|].
    pose proof (Zdigits2_lt m Hm) as Hlt. fold d in Hlt.
    destruct (Z_le_gt_dec (Z.pos n) d) as [Hle|Hgt].
    + assert (Hdq : Zdigits2 (m / 2 ^ Z.pos n) <= d - Z.pos n).
      { apply Zdigits2_le; [exact Hq|lia|].
        apply Z.div_lt_upper_bound; [exact Hp|].
        rewrite <- Z.pow_add_r by lia.
        replace (Z.pos n + (d - Z.pos n)) with d by lia. exact Hlt. }
      lia.
    + assert (Hz : m / 2 ^ Z.pos n = 0).
      { apply Z.div_small. split; [exact Hm|].
        assert (2 ^ d <= 2 ^ Z.pos n) by (apply Z.pow_le_mono_r; lia). lia. }
      rewrite Hz. cbn [Zdigits2]. lia.
  - rewrite shr_record_of_loc_m. fold d. lia.
Qed.

Lemma round_nearest_even_bound m l : m <= round_nearest_even m l <= m + 1.
Proof.
  unfold round_nearest_even. destruct l as [|[| |]]; try lia.
  destruct (Z.even m); lia.
Qed.

Lemma Zdigits2_mono a b : 0 <= a <= b -> Zdigits2 a <= Zdigits2 b.
Proof.
  intros H. apply Zdigits2_le; [lia|apply Zdigits2_nonneg|].
  pose proof (Zdigits2_lt b ltac:(lia)). lia.
Qed.

Lemma Zdigits2_succ m : 0 <= m -> Zdigits2 (m + 1) <= Zdigits2 m + 1.
Proof.
  intros H. pose proof (Zdigits2_nonneg m). pose proof (Zdigits2_lt m H).
  apply Zdigits2_le; [lia|lia|].
  rewrite Z.pow_add_r by lia. lia.
Qed.

(** Rounding to the format gives a zero or a finite double with the sign
    asked for; the magnitude grows by one binary digit at most. *)
Lemma binary_round_aux_bound s m e l B :
  0 <= m -> Zdigits2 m + e <= B -> -1074 <= B -> B <= 970 ->
  small_double (Some s) (B + 1) (binary_round_aux 53 1024 s m e l).
Proof.
  intros Hm HB Hmin Hmax. unfold binary_round_aux.
  destruct (shr_fexp_bound m e l B Hm HB Hmin) as (H1 & _ & H1').
  destruct (shr_fexp 53 1024 m e l) as [mrs' e'] eqn:E1. cbn [fst snd] in H1, H1'.
  set (m1 := round_nearest_even (shr_m mrs') (loc_of_shr_record mrs')).
  pose proof (round_nearest_even_bound (shr_m mrs') (loc_of_shr_record mrs')) as Hr.
  fold m1 in Hr.
  assert (Hm1 : 0 <= m1) by lia.
  assert (Hd1 : Zdigits2 m1 + e' <= B + 1).
  { pose proof (Zdigits2_mono m1 (shr_m mrs' + 1) ltac:(lia)).
    pose proof (Zdigits2_succ (shr_m mrs') H1). lia. }
  destruct (shr_fexp_bound m1 e' loc_Exact (B + 1) Hm1 Hd1 ltac:(lia)) as (H2 & H2d & H2').
  destruct (shr_fexp 53 1024 m1 e' loc_Exact) as [mrs'' e''] eqn:E2.
  cbn [fst snd] in H2, H2d, H2'.
  destruct (shr_m mrs'') as [|p|p] eqn:Ep; cbn [small_double]; [exact I| |lia].
  cbn [Zdigits2] in H2d, H2'.
  assert (He : e'' <= 1024 - 53) by lia.
  apply Z.leb_le in He. rewrite He. cbn [small_double].
  split; [intros b [= <-]; reflexivity|]. split; assumption.
Qed.

Lemma digits2_pos_iter_xO p d :
  digits2_pos (Pos.iter xO p d) = (digits2_pos p + d)%positive.
Proof.
  induction d as [|d IH] using Pos.peano_ind.
  - cbn. rewrite Pos.add_1_r. reflexivity.
  - rewrite Pos.iter_succ. cbn [digits2_pos]. rewrite IH, Pos.add_succ_r. reflexivity.
Qed.

(** The conversion of an integer to a double. *)
Lemma binary_normalize_bound z B :
  Z.abs z < 2 ^ B -> 0 <= B <= 970 ->
  small_double (Some (z <? 0)) (B + 1) (binary_normalize 53 1024 z 0 false).
Proof.
  intros Hz HB.
  assert (Hgen : forall s p, Z.pos p < 2 ^ B ->
            small_double (Some s) (B + 1) (binary_round 53 1024 s p 0)).
  { intros s p Hp. unfold binary_round, shl_align.
    assert (Hdp : Z.pos (digits2_pos p) <= B)
      by (apply (Zdigits2_le (Z.pos p)); lia).
    destruct (fexp 53 1024 (Z.pos (digits2_pos p) + 0) - 0) as [|n|n] eqn:En.
    - apply binary_round_aux_bound; cbn [Zdigits2]; lia.
    - apply binary_round_aux_bound; cbn [Zdigits2]; lia.
    - apply binary_round_aux_bound; cbn [Zdigits2]; try lia.
      rewrite digits2_pos_iter_xO, Pos2Z.inj_add. lia. }
  destruct z as [|p|p]; cbn [binary_normalize].
  - exact I.
  - apply Hgen. cbn in Hz. lia.
  - apply Hgen. cbn in Hz. lia.
Qed.

(** The quotient by 10^6 of an integer that fits 64 bits is a zero or a
    finite double below 2^47, negative only if the integer is. *)
Lemma quotient_1e6_small ns :
  Z.abs ns < 2 ^ 64 -> small_double (Some (ns <? 0)) 47 (quotient_1e6 ns).
Proof.
  intros Hns. unfold quotient_1e6.
  replace (binary_normalize 53 1024 1000000 0 false)
    with (S754_finite false 8589934592000000 (-33)) by (vm_compute; reflexivity).
  pose proof (binary_normalize_bound ns 64 Hns ltac:(lia)) as Hx.
  destruct (binary_normalize 53 1024 ns 0 false) as [s| | |s m1 e1];
    cbn [small_double] in Hx; try contradiction.
  - exact I.
  - destruct Hx as (Hs & Hd1 & Hl1). rewrite (Hs _ eq_refl).
    unfold SFdiv, SFdiv_core_binary.
    set (d1 := Zdigits2 (Z.pos m1)). set (d2 := Zdigits2 8589934592000000).
    assert (Hd2 : d2 = 53) by (vm_compute; reflexivity).
    assert (Ed1 : d1 = Z.pos (digits2_pos m1)) by reflexivity.
    set (e' := Z.min (fexp 53 1024 (d1 + e1 - (d2 + -33))) (e1 - -33)).
    assert (Hf : fexp 53 1024 (d1 + e1 - (d2 + -33))
                 = Z.max (d1 + e1 - (d2 + -33) - 53) (-1074)) by reflexivity.
    set (m' := match e1 - -33 - e' with
               | 0 => Z.pos m1
               | Z.pos _ => Z.shiftl (Z.pos m1) (e1 - -33 - e')
               | Z.neg _ => 0
               end).
    assert (Hm' : 0 <= m' < 2 ^ (d1 + (e1 - -33 - e'))).
    { pose proof (digits2_pos_bounds m1) as [_ Hlt]. rewrite <- Ed1 in Hlt.
      assert (Hs0 : 0 <= e1 - -33 - e') by lia.
      unfold m'. destruct (e1 - -33 - e') as [|n|n] eqn:En; [|clear En|lia].
      - rewrite Z.add_0_r. lia.
      - rewrite Z.shiftl_mul_pow2 by lia.
        assert (0 < 2 ^ Z.pos n) by (apply Z.pow_pos_nonneg; lia).
        rewrite Z.pow_add_r by lia. nia. }
    pose proof (Z.div_eucl_eq m' 8589934592000000 ltac:(lia)) as Hdiv.
    pose proof (Z.mod_pos_bound m' 8589934592000000 ltac:(lia)) as Hmod.
    unfold Z.modulo in Hmod.
    destruct (Z.div_eucl m' 8589934592000000) as [q r] eqn:Eq.
    assert (Hq : 0 <= q) by nia.
    assert (Hqm : q * 2 ^ 52 <= m') by nia.
    replace 47 with (46 + 1) by lia.
    replace (xorb (ns <? 0) false) with (ns <? 0) by (destruct (ns <? 0); reflexivity).
    apply binary_round_aux_bound; [exact Hq| |lia|lia].
    destruct (Z.eq_dec q 0) as [->|Hq0].
    + cbn [Zdigits2]. lia.
    + assert (Hsz : 52 <= d1 + (e1 - -33 - e')).
      { destruct (Z_le_gt_dec 52 (d1 + (e1 - -33 - e'))) as [|Hgt]; [assumption|].
        assert (2 ^ (d1 + (e1 - -33 - e')) <= 2 ^ 52).
        { apply Z.pow_le_mono_r; lia. }
        nia. }
      assert (Hdq : Zdigits2 q <= d1 + (e1 - -33 - e') - 52).
      { apply Zdigits2_le; [exact Hq|lia|].
        apply Z.mul_lt_mono_pos_r with (2 ^ 52); [lia|].
        rewrite <- Z.pow_add_r by lia.
        replace (d1 + (e1 - -33 - e') - 52 + 52) with (d1 + (e1 - -33 - e')) by lia.
        lia. }
      lia.
Qed.

(** [round_half_away] of such a double stays below 2^B in magnitude. *)
Lemma round_half_away_small sgn B f :
  0 <= B -> small_double sgn B f ->
  exists r, round_half_away f = Some r /\ - 2 ^ B <= r <= 2 ^ B /\
            (sgn = Some false -> 0 <= r).
Proof.
  intros HB Hf. destruct f as [s| | |s m e]; cbn [small_double] in Hf; try contradiction.
  - exists 0. cbn. assert (0 < 2 ^ B) by (apply Z.pow_pos_nonneg; lia).
    split; [reflexivity|]. split; lia.
  - destruct Hf as (Hs & _ & Hd). cbn [round_half_away].
    pose proof (digits2_pos_bounds m) as [_ Hm].
    set (d := Z.pos (digits2_pos m)) in *.
    assert (HpB : 0 < 2 ^ B) by (apply Z.pow_pos_nonneg; lia).
    set (mag := if 0 <=? e then Z.pos m * 2 ^ e
                else (2 * Z.pos m + 2 ^ (- e)) / 2 ^ (- e + 1)).
    assert (Hmag : 0 <= mag <= 2 ^ B).
    { unfold mag. destruct (Z.leb_spec 0 e) as [He|He].
      - assert (0 < 2 ^ e) by (apply Z.pow_pos_nonneg; lia).
        assert (2 ^ d * 2 ^ e <= 2 ^ B).
        { rewrite <- Z.pow_add_r by lia. apply Z.pow_le_mono_r; lia. }
        nia.
      - assert (Hp : 0 < 2 ^ (- e)) by (apply Z.pow_pos_nonneg; lia).
        assert (Hp1 : 2 ^ (- e + 1) = 2 * 2 ^ (- e)).
        { rewrite Z.pow_add_r by lia. change (2 ^ 1) with 2. lia. }
        split; [apply Z.div_pos; lia|].
        apply Z.lt_succ_r. apply Z.div_lt_upper_bound; [lia|].
        assert (H1 : 2 * 2 ^ d <= 2 ^ (- e + 1) * 2 ^ B).
        { replace (2 * 2 ^ d) with (2 ^ (d + 1))
            by (rewrite Z.pow_add_r by lia; change (2 ^ 1) with 2; lia).
          rewrite <- Z.pow_add_r by lia. apply Z.pow_le_mono_r; lia. }
        nia. }
    exists (if s then - mag else mag). split; [reflexivity|].
    split; [destruct s; lia|].
    intros E. rewrite (Hs _ E). lia.
Qed.

(** For every integer that fits 64 bits the quotient is a finite double,
    and [ns_to_ms] is the integer nearest to it, halves away from zero; it
    is below 2^47 in magnitude, and not negative when the integer is not:
    the value that [llround] leaves unspecified is never met. *)
Lemma ns_to_ms_is_nearest ns :
  Z.abs ns < 2 ^ 64 ->
  nearest_half_away (quotient_1e6 ns) (ns_to_ms ns) /\
  - 2 ^ 47 <= ns_to_ms ns <= 2 ^ 47 /\
  (0 <= ns -> 0 <= ns_to_ms ns).
Proof.
  intros Hns.
  destruct (round_half_away_small _ 47 _ ltac:(lia) (quotient_1e6_small ns Hns))
    as (r & E & Hr & Hs).
  assert (Hin : in_int64 r = true) by (apply in_int64_spec; lia).
  assert (Er : ns_to_ms ns = r).
  { unfold ns_to_ms, llround.
    change (SFdiv prec emax (to_double ns) double_1e6) with (quotient_1e6 ns).
    rewrite E, Hin. reflexivity. }
  rewrite Er. split; [apply round_half_away_nearest; exact E|].
  split; [exact Hr|].
  intros H0. apply Hs. f_equal. apply Z.ltb_ge. exact H0.
Qed.

(** ** The drift compensation on the task *)

Section DriftCompensation.
Context {W : TimingWheelConstants}.

Lemma execute_time_ms_range start end_ : 0 <= execute_time_ms_of start end_ < 2 ^ 64.
Proof. apply wrap64_range. Qed.

(** The running time in milliseconds is [llround] of the binary64 quotient
    of the nanoseconds by 10^6: the integer nearest to that double, halves
    away from zero.  It is not negative, so that the conversion to
    [uint64_t] keeps it. *)
Lemma execute_time_ms_is_nearest start end_ :
  nearest_half_away (quotient_1e6 (wrap64 (end_ - start)))
    (execute_time_ms_of start end_) /\
  0 <= execute_time_ms_of start end_ <= 2 ^ 47.
Proof.
  pose proof (wrap64_range (end_ - start)) as Hw.
  destruct (ns_to_ms_is_nearest (wrap64 (end_ - start))) as (Hn & Hr & Hs); [lia|].
  specialize (Hs ltac:(lia)).
  unfold execute_time_ms_of. cbv zeta.
  rewrite (wrap64_small (ns_to_ms (wrap64 (end_ - start)))) by lia.
  split; [exact Hn|lia].
Qed.

(** The accumulated error stays a signed 64-bit value. *)
Lemma accumulate_error_range start k :
  - 2 ^ 63 <= accumulated_error_ns k < 2 ^ 63 ->
  - 2 ^ 63 <= accumulated_error_ns (accumulate_error start k) < 2 ^ 63.
Proof.
  intros H. unfold accumulate_error.
  destruct (last_execute_time_ns k =? 0); cbn; [exact H|apply to_int64_range].
Qed.

Lemma accumulate_error_interval start k :
  interval_ms (accumulate_error start k) = interval_ms k.
Proof. unfold accumulate_error. destruct (_ =? 0); reflexivity. Qed.

Lemma accumulate_error_mutex start k :
  mutex (accumulate_error start k) = mutex k.
Proof. unfold accumulate_error. destruct (_ =? 0); reflexivity. Qed.

Lemma accumulate_error_callback start k :
  callback (accumulate_error start k) = callback k.
Proof. unfold accumulate_error. destruct (_ =? 0); reflexivity. Qed.

Lemma accumulate_error_first start k :
  last_execute_time_ns k = 0 ->
  accumulated_error_ns (accumulate_error start k) = accumulated_error_ns k.
Proof. intros E. unfold accumulate_error. rewrite E. reflexivity. Qed.

Lemma accumulate_error_later start k :
  last_execute_time_ns k <> 0 ->
  accumulated_error_ns (accumulate_error start k)
  = to_int64 (accumulated_error_ns k
              + ((start - last_execute_time_ns k) - interval_ms k * 1000000)).
Proof.
  intros E. unfold accumulate_error.
  destruct (Z.eqb_spec (last_execute_time_ns k) 0) as [E0|_]; [contradiction|].
  cbn. apply accumulated_sum_wrap.
Qed.

Lemma next_fire_frame exec k :
  interval_ms (next_fire exec k) = interval_ms k /\
  accumulated_error_ns (next_fire exec k) = accumulated_error_ns k /\
  last_execute_time_ns (next_fire exec k) = last_execute_time_ns k /\
  mutex (next_fire exec k) = mutex k /\
  callback (next_fire exec k) = callback k /\
  task_timer_id (next_fire exec k) = task_timer_id k.
Proof.
  unfold next_fire.
  destruct (_ <=? exec); [repeat split|].
  destruct (_ <=? _); repeat split.
Qed.

(** The unsigned subtraction followed by the cast to [int64_t] is the
    signed difference whenever the callback ran shorter than the period. *)
Lemma signed_margin interval exec :
  0 <= TIMER_RESOLUTION_MS <= 2 ^ 63 ->
  0 <= exec < interval -> interval < 2 ^ 63 ->
  to_int64 (wrap64 (interval - exec - TIMER_RESOLUTION_MS))
  = interval - exec - TIMER_RESOLUTION_MS.
Proof. intros HR He Hi. rewrite to_int64_wrap64. apply to_int64_small. lia. Qed.

Lemma next_fire_value exec k :
  0 <= TIMER_RESOLUTION_MS <= 2 ^ 63 ->
  0 <= interval_ms k < 2 ^ 63 -> 0 <= exec ->
  next_fire_duration_ms (next_fire exec k)
  = if interval_ms k <=? exec then TIMER_RESOLUTION_MS
    else if ns_to_ms (accumulated_error_ns k)
            <=? interval_ms k - exec - TIMER_RESOLUTION_MS
         then interval_ms k - exec - ns_to_ms (accumulated_error_ns k)
         else TIMER_RESOLUTION_MS.
Proof.
  intros HR Hi He. unfold next_fire.
  destruct (Z.leb_spec (interval_ms k) exec) as [Hle|Hlt]; [reflexivity|].
  rewrite signed_margin by lia.
  destruct (Z.leb_spec (ns_to_ms (accumulated_error_ns k))
              (interval_ms k - exec - TIMER_RESOLUTION_MS)) as [Hm|Hm];
    [|reflexivity].
  cbn. pose proof (ns_to_ms_range (accumulated_error_ns k)).
  apply wrap64_small. lia.
Qed.

Lemma next_fire_at_least_resolution exec k :
  0 <= TIMER_RESOLUTION_MS <= 2 ^ 63 ->
  0 <= interval_ms k < 2 ^ 63 -> 0 <= exec ->
  TIMER_RESOLUTION_MS <= next_fire_duration_ms (next_fire exec k).
Proof.
  intros HR Hi He. rewrite next_fire_value by assumption.
  destruct (_ <=? exec); [lia|].
  destruct (Z.leb_spec (ns_to_ms (accumulated_error_ns k))
              (interval_ms k - exec - TIMER_RESOLUTION_MS)); lia.
Qed.

Lemma drift_compensate_frame start end_ k :
  interval_ms (drift_compensate start end_ k) = interval_ms k /\
  last_execute_time_ns (drift_compensate start end_ k) = start /\
  mutex (drift_compensate start end_ k) = mutex k /\
  callback (drift_compensate start end_ k) = callback k.
Proof.
  unfold drift_compensate.
  destruct (next_fire_frame (execute_time_ms_of start end_) (accumulate_error start k))
    as (Hi & _ & Hl & Hm & Hc & _).
  rewrite Hi, Hl, Hm, Hc, accumulate_error_interval, accumulate_error_mutex,
    accumulate_error_callback.
  repeat split.
Qed.

Lemma drift_compensate_set_mutex start end_ b k :
  drift_compensate start end_ (set_mutex b k)
  = set_mutex b (drift_compensate start end_ k).
Proof.
  unfold drift_compensate, next_fire, accumulate_error. cbn.
  destruct (last_execute_time_ns k =? 0); cbn;
    destruct (interval_ms k <=? _); cbn; try reflexivity;
    destruct (_ <=? _); reflexivity.
Qed.

End DriftCompensation.

Lemma set_mutex_idle k : mutex k = false -> set_mutex false k = k.
Proof. intros E. destruct k; cbn in *; subst; reflexivity. Qed.

Lemma set_mutex_twice b b' k : set_mutex b (set_mutex b' k) = set_mutex b k.
Proof. reflexivity. Qed.

(** ** The store of tasks *)

Lemma set_heap_id s : set_heap (heap s) s = s.
Proof. destruct s; reflexivity. Qed.

Lemma shared_copy_at a c s :
  heap s !! a = Some c ->
  shared_copy a s
  = set_heap (<[a := {| obj := obj c; use_count := S (use_count c) |}]> (heap s)) s.
Proof. intros H. unfold shared_copy. rewrite (alter_alt_Some _ _ _ _ H). reflexivity. Qed.

Lemma update_task_at a f c s :
  heap s !! a = Some c ->
  update_task a f s
  = set_heap (<[a := {| obj := f (obj c); use_count := use_count c |}]> (heap s)) s.
Proof. intros H. unfold update_task. rewrite (alter_alt_Some _ _ _ _ H). reflexivity. Qed.

Lemma shared_release_shared a k n s :
  heap s !! a = Some {| obj := k; use_count := S (S n) |} ->
  shared_release a s = set_heap (<[a := {| obj := k; use_count := S n |}]> (heap s)) s.
Proof. intros H. unfold shared_release. rewrite H. reflexivity. Qed.

Lemma shared_release_last a k s :
  heap s !! a = Some {| obj := k; use_count := 1 |} ->
  shared_release a s = set_heap (delete a (heap s)) s.
Proof. intros H. unfold shared_release. rewrite H. reflexivity. Qed.

(** Releasing one task leaves the others, the wheel and the log alone. *)
Lemma shared_release_shape b s :
  exists h, shared_release b s = set_heap h s /\
            forall a, a <> b -> h !! a = heap s !! a.
Proof.
  unfold shared_release. destruct (heap s !! b) as [c|] eqn:E.
  - destruct (use_count c) as [|[|n]].
    + eexists. split; [reflexivity|]. intros a Hne. apply lookup_delete_ne. congruence.
    + eexists. split; [reflexivity|]. intros a Hne. apply lookup_delete_ne. congruence.
    + eexists. split; [reflexivity|]. intros a Hne. apply lookup_insert_ne. congruence.
  - exists (heap s). split; [symmetry; apply set_heap_id|]. auto.
Qed.

Lemma mutex_acquire_free a c s :
  heap s !! a = Some c -> mutex (obj c) = false ->
  mutex_acquire a s
  = Some (set_heap (<[a := {| obj := set_mutex true (obj c);
                              use_count := use_count c |}]> (heap s)) s).
Proof.
  intros H Hm. unfold mutex_acquire. rewrite H, Hm.
  rewrite (update_task_at _ _ _ _ H). reflexivity.
Qed.

Lemma mutex_acquire_held a c s :
  heap s !! a = Some c -> mutex (obj c) = true -> mutex_acquire a s = None.
Proof. intros H Hm. unfold mutex_acquire. rewrite H, Hm. reflexivity. Qed.

Lemma weak_lock_dead a s : heap s !! a = None -> weak_lock a s = None.
Proof. intros H. unfold weak_lock. rewrite H. reflexivity. Qed.

Lemma weak_lock_alive a c s :
  heap s !! a = Some c ->
  weak_lock a s
  = Some (set_heap (<[a := {| obj := obj c; use_count := S (use_count c) |}]> (heap s)) s).
Proof. intros H. unfold weak_lock. rewrite H, (shared_copy_at _ _ _ H). reflexivity. Qed.

(** Rewriting of the store after a sequence of operations on one address. *)
Ltac heap_lookup := cbn; first [eassumption | apply lookup_insert_eq | reflexivity].

Ltac heap_step :=
  first
    [ rewrite lookup_insert_eq
    | rewrite insert_insert_eq
    | rewrite delete_insert_eq
    | match goal with
      | |- context [shared_copy ?a ?s] =>
          erewrite (shared_copy_at a _ s) by heap_lookup
      | |- context [update_task ?a ?f ?s] =>
          erewrite (update_task_at a f _ s) by heap_lookup
      | |- context [shared_release ?a ?s] =>
          first [ erewrite (shared_release_shared a _ _ s) by heap_lookup
                | erewrite (shared_release_last a _ s) by heap_lookup ]
      | |- context [mutex_acquire ?a ?s] =>
          erewrite (mutex_acquire_free a _ s) by heap_lookup
      end ];
  cbn.

Ltac heap_simpl := cbn; repeat heap_step.

Section Callbacks.
Context {W : TimingWheelConstants}.

(** The periodic lambda on a live task whose mutex is free: the user's
    callback runs, the task is updated and submitted again. *)
Lemma periodic_callback_alive cb w start end_ s k n :
  heap s !! w = Some {| obj := k; use_count := S n |} -> mutex k = false ->
  periodic_callback cb w start (Returned end_) s
  = Some {| reality_mode := reality_mode s; global_timer_id := global_timer_id s;
            heap := <[w := {| obj := drift_compensate start end_ k;
                              use_count := S n |}]> (heap s);
            next_addr := next_addr s;
            wheel := wheel s ++
                     [{| sub_task := w;
                         sub_delay_ms :=
                           next_fire_duration_ms (drift_compensate start end_ k);
                         sub_callback := callback k |}];
            trace := trace s ++ [EvUser cb] |}.
Proof.
  intros H Hm. unfold periodic_callback.
  rewrite (weak_lock_alive _ _ _ H).
  heap_simpl. unfold mutex_release, AddTask. heap_simpl.
  rewrite drift_compensate_set_mutex. cbn.
  destruct (drift_compensate_frame start end_ k) as (_ & _ & Hmx & Hcb).
  rewrite Hcb, !set_mutex_twice, set_mutex_idle by congruence.
  reflexivity.
Qed.

Lemma oneshot_callback_alive cb w s k n :
  heap s !! w = Some {| obj := k; use_count := S n |} -> mutex k = false ->
  oneshot_callback cb w s = Some (emit (EvUser cb) s).
Proof.
  intros H Hm. unfold oneshot_callback.
  rewrite (weak_lock_alive _ _ _ H).
  heap_simpl. unfold mutex_release. heap_simpl.
  rewrite !set_mutex_twice, set_mutex_idle by assumption.
  rewrite insert_id by assumption.
  destruct s; reflexivity.
Qed.

(** The same when the user's callback throws: the guard and the local
    pointer are undone, and nothing else has happened. *)
Lemma periodic_callback_threw cb w start s k n :
  heap s !! w = Some {| obj := k; use_count := S n |} -> mutex k = false ->
  periodic_callback cb w start Threw s = Some (emit (EvUser cb) s).
Proof.
  intros H Hm. unfold periodic_callback.
  rewrite (weak_lock_alive _ _ _ H).
  heap_simpl. unfold mutex_release. heap_simpl.
  rewrite !set_mutex_twice, set_mutex_idle by assumption.
  rewrite insert_id by assumption.
  destruct s; reflexivity.
Qed.

Lemma periodic_callback_dead cb w start ending s :
  heap s !! w = None -> periodic_callback cb w start ending s = Some s.
Proof. intros H. unfold periodic_callback. rewrite weak_lock_dead by assumption. reflexivity. Qed.

Lemma oneshot_callback_dead cb w s :
  heap s !! w = None -> oneshot_callback cb w s = Some s.
Proof. intros H. unfold oneshot_callback. rewrite weak_lock_dead by assumption. reflexivity. Qed.

End Callbacks.

(** ** [InitTimerTask], [Start] and [Stop] in closed form *)

Lemma set_started_same t b : started_ t = b -> set_started_ b t = t.
Proof. intros <-. destruct t; reflexivity. Qed.

Section Lifecycle.
Context {W : TimingWheelConstants}.

Lemma InitTimerTask_zero t s :
  period (timer_opt_ t) = 0 -> InitTimerTask t s = (false, t, emit EvErrorPeriodZero s).
Proof. intros E. unfold InitTimerTask. rewrite E. reflexivity. Qed.

Lemma InitTimerTask_too_large t s :
  period (timer_opt_ t) <> 0 -> TIMER_MAX_INTERVAL_MS <= period (timer_opt_ t) ->
  InitTimerTask t s = (false, t, emit EvErrorPeriodTooLarge s).
Proof.
  intros E Hle. unfold InitTimerTask.
  destruct (Z.eqb_spec (period (timer_opt_ t)) 0) as [|_]; [contradiction|].
  destruct (Z.leb_spec TIMER_MAX_INTERVAL_MS (period (timer_opt_ t))); [reflexivity|lia].
Qed.

(** The task as [InitTimerTask] leaves it. *)
Lemma InitTimerTask_valid t s :
  task_ t = None ->
  0 < period (timer_opt_ t) < TIMER_MAX_INTERVAL_MS ->
  InitTimerTask t s
  = (true, set_task_ (Some (next_addr s)) t,
     {| reality_mode := reality_mode s; global_timer_id := global_timer_id s;
        heap := <[next_addr s :=
                    {| obj := {| task_timer_id := timer_id_ t;
                                 callback := Some {| cb_oneshot := oneshot (timer_opt_ t);
                                                     cb_user := opt_callback (timer_opt_ t);
                                                     cb_weak := next_addr s |};
                                 interval_ms := period (timer_opt_ t);
                                 next_fire_duration_ms := period (timer_opt_ t);
                                 accumulated_error_ns := 0;
                                 last_execute_time_ns := 0;
                                 mutex := false |};
                       use_count := 1 |}]> (heap s);
        next_addr := S (next_addr s); wheel := wheel s; trace := trace s |}).
Proof.
  intros Ht Hp. unfold InitTimerTask.
  destruct (Z.eqb_spec (period (timer_opt_ t)) 0) as [|_]; [lia|].
  destruct (Z.leb_spec TIMER_MAX_INTERVAL_MS (period (timer_opt_ t))); [lia|].
  rewrite Ht. unfold make_shared. heap_simpl. reflexivity.
Qed.

(** The same when the handle still holds an older task, which is released. *)
Lemma InitTimerTask_success t s :
  task_ t <> Some (next_addr s) ->
  0 < period (timer_opt_ t) < TIMER_MAX_INTERVAL_MS ->
  exists s',
    InitTimerTask t s = (true, set_task_ (Some (next_addr s)) t, s') /\
    heap s' !! next_addr s
    = Some {| obj := {| task_timer_id := timer_id_ t;
                        callback := Some {| cb_oneshot := oneshot (timer_opt_ t);
                                            cb_user := opt_callback (timer_opt_ t);
                                            cb_weak := next_addr s |};
                        interval_ms := period (timer_opt_ t);
                        next_fire_duration_ms := period (timer_opt_ t);
                        accumulated_error_ns := 0;
                        last_execute_time_ns := 0;
                        mutex := false |};
              use_count := 1 |} /\
    wheel s' = wheel s /\ trace s' = trace s.
Proof.
  intros Hold Hp.
  destruct (task_ t) as [old|] eqn:Ht.
  - unfold InitTimerTask.
    destruct (Z.eqb_spec (period (timer_opt_ t)) 0) as [|_]; [lia|].
    destruct (Z.leb_spec TIMER_MAX_INTERVAL_MS (period (timer_opt_ t))); [lia|].
    rewrite Ht. unfold make_shared. cbn.
    match goal with |- context [shared_release old ?s1] =>
      destruct (shared_release_shape old s1) as (h & -> & Hh) end.
    assert (Hnew : h !! next_addr s
                   = Some {| obj := new_TimerTask (timer_id_ t); use_count := 1 |}).
    { rewrite Hh by congruence. cbn. apply lookup_insert_eq. }
    heap_simpl. eexists. split; [reflexivity|]. cbn.
    rewrite lookup_insert_eq. auto.
  - eexists. split; [apply InitTimerTask_valid; assumption|]. cbn.
    rewrite lookup_insert_eq. auto.
Qed.

Lemma Start_replay t s : reality_mode s = false -> Start t s = (t, s).
Proof. intros E. unfold Start. rewrite E. reflexivity. Qed.

Lemma Start_started t s : started_ t = true -> Start t s = (t, s).
Proof.
  intros E. unfold Start. rewrite E. cbn.
  rewrite set_started_same by assumption.
  destruct (reality_mode s); reflexivity.
Qed.

Lemma Start_invalid t s :
  reality_mode s = true -> started_ t = false ->
  period (timer_opt_ t) = 0 \/ TIMER_MAX_INTERVAL_MS <= period (timer_opt_ t) ->
  Start t s
  = (set_started_ true t,
     emit (if period (timer_opt_ t) =? 0 then EvErrorPeriodZero
           else EvErrorPeriodTooLarge) s).
Proof.
  intros Hr Hs Hp. unfold Start. rewrite Hr, Hs. cbn.
  destruct (Z.eqb_spec (period (timer_opt_ t)) 0) as [E|E].
  - rewrite InitTimerTask_zero by exact E. reflexivity.
  - rewrite InitTimerTask_too_large by (cbn; lia). reflexivity.
Qed.

Lemma Start_valid t s :
  reality_mode s = true -> idle t ->
  0 < period (timer_opt_ t) < TIMER_MAX_INTERVAL_MS ->
  Start t s
  = (set_task_ (Some (next_addr s)) (set_started_ true t),
     {| reality_mode := true; global_timer_id := global_timer_id s;
        heap := <[next_addr s :=
                    {| obj := {| task_timer_id := timer_id_ t;
                                 callback := Some {| cb_oneshot := oneshot (timer_opt_ t);
                                                     cb_user := opt_callback (timer_opt_ t);
                                                     cb_weak := next_addr s |};
                                 interval_ms := period (timer_opt_ t);
                                 next_fire_duration_ms := period (timer_opt_ t);
                                 accumulated_error_ns := 0;
                                 last_execute_time_ns := 0;
                                 mutex := false |};
                       use_count := 1 |}]> (heap s);
        next_addr := S (next_addr s);
        wheel := wheel s ++
                 [{| sub_task := next_addr s;
                     sub_delay_ms := period (timer_opt_ t);
                     sub_callback := Some {| cb_oneshot := oneshot (timer_opt_ t);
                                             cb_user := opt_callback (timer_opt_ t);
                                             cb_weak := next_addr s |} |}];
        trace := trace s ++ [EvInfoStart (timer_id_ t)] |}).
Proof.
  intros Hr [Hs Ht] Hp. unfold Start. rewrite Hr, Hs. cbn.
  rewrite InitTimerTask_valid by (cbn; assumption). cbn.
  unfold AddTask. heap_simpl. unfold task_id_at. heap_simpl.
  rewrite Hr. reflexivity.
Qed.

Lemma Stop_not_started t s : started_ t = false -> Stop t s = Some (t, s).
Proof.
  intros E. unfold Stop. rewrite E. cbn.
  rewrite set_started_same by assumption. reflexivity.
Qed.

Lemma Stop_no_task t s : task_ t = None -> Stop t s = Some (set_started_ false t, s).
Proof. intros E. unfold Stop. cbn. rewrite E. destruct (started_ t); reflexivity. Qed.

Lemma Stop_running t s a :
  running t s a ->
  Stop t s
  = Some (set_task_ None (set_started_ false t),
          {| reality_mode := reality_mode s; global_timer_id := global_timer_id s;
             heap := delete a (heap s); next_addr := next_addr s;
             wheel := wheel s; trace := trace s ++ [EvInfoStop (timer_id_ t)] |}).
Proof.
  intros (Hs & Ht & k & Hk & Hm). unfold Stop. cbn. rewrite Ht, Hs.
  heap_simpl. unfold mutex_release. heap_simpl.
  reflexivity.
Qed.

(** [Stop] on a started handle whose task is alive with a free mutex: the
    handle gives up its [shared_ptr], and the task is deleted when that was
    the last one. *)
Lemma Stop_alive t s a k n :
  started_ t = true -> task_ t = Some a ->
  heap s !! a = Some {| obj := k; use_count := S n |} -> mutex k = false ->
  Stop t s
  = Some (set_task_ None (set_started_ false t),
          {| reality_mode := reality_mode s; global_timer_id := global_timer_id s;
             heap := match n with
                     | O => delete a (heap s)
                     | S m => <[a := {| obj := k; use_count := S m |}]> (heap s)
                     end;
             next_addr := next_addr s; wheel := wheel s;
             trace := trace s ++ [EvInfoStop (timer_id_ t)] |}).
Proof.
  intros Hs Ht Hk Hm. unfold Stop. cbn. rewrite Ht, Hs.
  destruct n as [|m]; heap_simpl; unfold mutex_release; heap_simpl.
  - reflexivity.
  - rewrite !set_mutex_twice, set_mutex_idle by assumption. reflexivity.
Qed.

Lemma Start_gives_running t s :
  reality_mode s = true -> idle t ->
  0 < period (timer_opt_ t) < TIMER_MAX_INTERVAL_MS ->
  running (Start t s).1 (Start t s).2 (next_addr s).
Proof.
  intros Hr Hi Hp. rewrite Start_valid by assumption. cbn.
  split; [reflexivity|]. split; [reflexivity|].
  eexists. split; [apply lookup_insert_eq | reflexivity].
Qed.

Lemma Stop_gives_idle t s a t' s' :
  running t s a -> Stop t s = Some (t', s') -> idle t'.
Proof.
  intros Hrun E. rewrite (Stop_running _ _ _ Hrun) in E.
  injection E as <- <-. split; reflexivity.
Qed.

End Lifecycle.

(** ** A periodic task through its firings *)

Section Firings.
Context {W : TimingWheelConstants}.

(** What a firing of a periodic task keeps, and what it establishes, when
    the user's callback returns. *)
Lemma periodic_firing_step c w start end_ s k :
  cb_oneshot c = false -> cb_weak c = w ->
  heap s !! w = Some {| obj := k; use_count := 1 |} -> mutex k = false ->
  exists s',
    invoke c start (Returned end_) s = Some s' /\
    heap s' !! w = Some {| obj := drift_compensate start end_ k; use_count := 1 |} /\
    mutex (drift_compensate start end_ k) = false /\
    interval_ms (drift_compensate start end_ k) = interval_ms k /\
    last_execute_time_ns (drift_compensate start end_ k) = start.
Proof.
  intros Hc Hw Hk Hm. unfold invoke. rewrite Hc, Hw.
  rewrite (periodic_callback_alive _ _ _ _ _ _ _ Hk Hm).
  eexists. split; [reflexivity|]. cbn.
  destruct (drift_compensate_frame start end_ k) as (Hi & Hl & Hmx & _).
  rewrite lookup_insert_eq, Hi, Hl, Hmx. auto.
Qed.

(** A firing whose user callback throws adds the call to the log and
    changes nothing else. *)
Lemma periodic_firing_threw c w start s k n :
  cb_oneshot c = false -> cb_weak c = w ->
  heap s !! w = Some {| obj := k; use_count := S n |} -> mutex k = false ->
  invoke c start Threw s = Some (emit (EvUser (cb_user c)) s).
Proof.
  intros Hc Hw Hk Hm. unfold invoke. rewrite Hc, Hw.
  apply (periodic_callback_threw _ _ _ _ _ _ Hk Hm).
Qed.

(** On a first firing there is no drift yet; with a clock that never goes
    back this stays so for as long as [last_execute_time_ns] is 0. *)
Lemma first_firing_kept start end_ k :
  (last_execute_time_ns k = 0 -> accumulated_error_ns k = 0) ->
  0 <= last_execute_time_ns k <= start ->
  last_execute_time_ns (drift_compensate start end_ k) = 0 ->
  accumulated_error_ns (drift_compensate start end_ k) = 0.
Proof.
  intros Hinv Hmono Hz.
  destruct (drift_compensate_frame start end_ k) as (_ & Hl & _).
  rewrite Hl in Hz. subst start.
  assert (E : last_execute_time_ns k = 0) by lia.
  unfold drift_compensate.
  destruct (next_fire_frame (execute_time_ms_of 0 end_) (accumulate_error 0 k))
    as (_ & Ha & _).
  rewrite Ha, accumulate_error_first by exact E. auto.
Qed.

Lemma nondecreasing_app {A : Type} prev (rs r : list (Z * A)) :
  nondecreasing prev (rs ++ r) <->
  nondecreasing prev rs /\ nondecreasing (last_start prev rs) r.
Proof.
  revert prev. induction rs as [|[st en] rs IH]; intros prev; cbn.
  - tauto.
  - rewrite IH. tauto.
Qed.

Lemma drift_compensate_error start end_ k :
  accumulated_error_ns (drift_compensate start end_ k)
  = accumulated_error_ns (accumulate_error start k).
Proof. unfold drift_compensate. apply next_fire_frame. Qed.

Lemma drift_compensate_id start end_ k :
  task_timer_id (drift_compensate start end_ k) = task_timer_id k.
Proof.
  unfold drift_compensate.
  destruct (next_fire_frame (execute_time_ms_of start end_) (accumulate_error start k))
    as (_ & _ & _ & _ & _ & ->).
  unfold accumulate_error. destruct (_ =? 0); reflexivity.
Qed.

Lemma firings_frame rs : forall k,
  interval_ms (firings rs k) = interval_ms k /\
  callback (firings rs k) = callback k /\
  task_timer_id (firings rs k) = task_timer_id k /\
  mutex (firings rs k) = mutex k.
Proof.
  induction rs as [|[st en] rs IH]; intros k; cbn; [auto|].
  destruct (IH (drift_compensate st en k)) as (-> & -> & -> & ->).
  destruct (drift_compensate_frame st en k) as (-> & _ & -> & ->).
  rewrite drift_compensate_id. auto.
Qed.

(** The drift after some firings, seen from the first one at [first]. *)
Lemma firings_error first rs : forall k n,
  last_execute_time_ns k <> 0 ->
  accumulated_error_ns k
  = to_int64 ((last_execute_time_ns k - first)
              - Z.of_nat n * (interval_ms k * 1000000)) ->
  Forall (fun r => r.1 <> 0) rs ->
  last_execute_time_ns (firings rs k) = last_start (last_execute_time_ns k) rs /\
  accumulated_error_ns (firings rs k)
  = to_int64 ((last_start (last_execute_time_ns k) rs - first)
              - Z.of_nat (n + length rs) * (interval_ms k * 1000000)).
Proof.
  induction rs as [|[st en] rs IH]; intros k n Hl Ha Hrs.
  - cbn. rewrite Nat.add_0_r. auto.
  - inversion Hrs as [|r rs' Hst Hrest]; subst. cbn in Hst.
    destruct (drift_compensate_frame st en k) as (Hi & Hl' & _).
    cbn [firings last_start length].
    destruct (IH (drift_compensate st en k) (S n)) as (E1 & E2).
    + rewrite Hl'. exact Hst.
    + rewrite Hl', Hi, drift_compensate_error, accumulate_error_later by exact Hl.
      rewrite Ha, to_int64_add_to_int64. f_equal. lia.
    + exact Hrest.
    + rewrite Hl', Hi in *. split; [exact E1|].
      rewrite E2. f_equal. lia.
Qed.

Lemma firings_app rs1 rs2 : forall k,
  firings (rs1 ++ rs2) k = firings rs2 (firings rs1 k).
Proof. induction rs1 as [|[st en] rs1 IH]; intros k; cbn; [reflexivity|apply IH]. Qed.

Lemma returned_returning rs : returned (returning rs) = rs.
Proof.
  induction rs as [|[st en] rs IH]; [reflexivity|].
  cbn. fold (returning rs). rewrite IH. reflexivity.
Qed.

(** Once the user's callback has returned from a firing, the delay asked
    for is at least the resolution. *)
Lemma firings_at_least_resolution rs : forall k,
  0 <= TIMER_RESOLUTION_MS <= 2 ^ 63 -> 0 <= interval_ms k < 2 ^ 63 ->
  rs <> [] ->
  TIMER_RESOLUTION_MS <= next_fire_duration_ms (firings rs k).
Proof.
  induction rs as [|[st en] rs IH]; intros k HR Hi Hne; [contradiction|].
  cbn. destruct rs as [|r rs].
  - cbn. unfold drift_compensate. apply next_fire_at_least_resolution.
    + exact HR.
    + rewrite accumulate_error_interval. exact Hi.
    + apply execute_time_ms_range.
  - apply IH; [exact HR| |discriminate].
    destruct (drift_compensate_frame st en k) as (-> & _). exact Hi.
Qed.

(** A run of invocations of the periodic callback on a live task: every
    invocation is left, by return or by exception; the task goes through
    the firings whose user callback returned, each of which makes one
    submission. *)
Lemma invoke_all_firings c w rs : forall s k,
  cb_oneshot c = false -> cb_weak c = w ->
  heap s !! w = Some {| obj := k; use_count := 1 |} -> mutex k = false ->
  exists s',
    invoke_all c rs s = Some s' /\
    heap s' !! w = Some {| obj := firings (returned rs) k; use_count := 1 |} /\
    length (wheel s') = (length (wheel s) + length (returned rs))%nat /\
    user_calls (cb_user c) s' = (user_calls (cb_user c) s + length rs)%nat.
Proof.
  induction rs as [|[st [en|]] rs IH]; intros s k Hc Hw Hk Hm.
  - exists s. cbn. rewrite !Nat.add_0_r. auto.
  - cbn. unfold invoke. rewrite Hc, Hw.
    rewrite (periodic_callback_alive _ _ _ _ _ _ _ Hk Hm). cbn.
    match goal with |- context [invoke_all c rs ?s1] =>
      destruct (IH s1 (drift_compensate st en k) Hc Hw) as (s' & E & Hk' & Hq & Hu)
    end.
    { cbn. apply lookup_insert_eq. }
    { destruct (drift_compensate_frame st en k) as (_ & _ & -> & _). exact Hm. }
    exists s'. split; [exact E|]. split; [exact Hk'|].
    rewrite Hq, Hu. unfold user_calls. cbn.
    rewrite List.filter_app, !length_app. cbn. rewrite Nat.eqb_refl. cbn. lia.
  - cbn. rewrite (periodic_firing_threw c w st s k 0 Hc Hw Hk Hm). cbn.
    destruct (IH (emit (EvUser (cb_user c)) s) k Hc Hw Hk Hm)
      as (s' & E & Hk' & Hq & Hu).
    exists s'. split; [exact E|]. split; [exact Hk'|].
    rewrite Hq, Hu. unfold user_calls. cbn.
    rewrite List.filter_app, !length_app. cbn. rewrite Nat.eqb_refl. cbn. lia.
Qed.

(** The same run under a clock that never goes back: as long as
    [last_execute_time_ns] is 0 no error has been accumulated. *)
Lemma periodic_firings c w rs : forall s k prev,
  cb_oneshot c = false -> cb_weak c = w ->
  heap s !! w = Some {| obj := k; use_count := 1 |} -> mutex k = false ->
  (last_execute_time_ns k = 0 -> accumulated_error_ns k = 0) ->
  0 <= last_execute_time_ns k <= prev ->
  nondecreasing prev rs ->
  exists s' k',
    invoke_all c rs s = Some s' /\
    heap s' !! w = Some {| obj := k'; use_count := 1 |} /\
    mutex k' = false /\
    interval_ms k' = interval_ms k /\
    (last_execute_time_ns k' = 0 -> accumulated_error_ns k' = 0) /\
    0 <= last_execute_time_ns k' <= last_start prev rs.
Proof.
  induction rs as [|[st [en|]] rs IH]; intros s k prev Hc Hw Hk Hm Hinv H0 Hmono.
  - exists s, k. cbn. repeat split; auto; lia.
  - destruct Hmono as [Hle Hmono].
    destruct (periodic_firing_step c w st en s k Hc Hw Hk Hm)
      as (s1 & E1 & Hk1 & Hm1 & Hi1 & Hl1).
    destruct (IH s1 (drift_compensate st en k) st Hc Hw Hk1 Hm1) as
      (s' & k' & E & Hk' & Hm' & Hi' & Hinv' & H0').
    + apply first_firing_kept; [assumption|lia].
    + rewrite Hl1. lia.
    + exact Hmono.
    + exists s', k'. cbn. rewrite E1. cbn.
      repeat split; try assumption; try congruence; lia.
  - destruct Hmono as [Hle Hmono].
    destruct (IH (emit (EvUser (cb_user c)) s) k st Hc Hw Hk Hm Hinv) as
      (s' & k' & E & Hk' & Hm' & Hi' & Hinv' & H0').
    + lia.
    + exact Hmono.
    + exists s', k'. cbn.
      rewrite (periodic_firing_threw c w st s k 0 Hc Hw Hk Hm). cbn.
      repeat split; try assumption; lia.
Qed.

End Firings.

(** ** The claims about the task *)

Section TaskClaims.
Context {W : TimingWheelConstants}.

(** C6: task initialization fails exactly when the period is 0 or at least
    [TIMER_MAX_INTERVAL_MS]; the failure is an error line and a [false]
    result that leaves the handle, the store and the wheel as they were; on
    success the new task has [interval_ms = next_fire_duration_ms = period],
    [last_execute_time_ns = 0] and [accumulated_error_ns = 0].  The period
    is unsigned, and the handle does not point at a control block that is
    still to be allocated. *)
Theorem InitTimerTask_validates_period t s :
  0 <= period (timer_opt_ t) -> task_ t <> Some (next_addr s) ->
  exists ok t' s',
    InitTimerTask t s = (ok, t', s') /\
    (ok = false <->
       period (timer_opt_ t) = 0 \/ TIMER_MAX_INTERVAL_MS <= period (timer_opt_ t)) /\
    (ok = false ->
       t' = t /\ heap s' = heap s /\ wheel s' = wheel s /\
       (trace s' = trace s ++ [EvErrorPeriodZero] \/
        trace s' = trace s ++ [EvErrorPeriodTooLarge])) /\
    (ok = true ->
       task_ t' = Some (next_addr s) /\ wheel s' = wheel s /\ trace s' = trace s /\
       exists k, heap s' !! next_addr s = Some {| obj := k; use_count := 1 |} /\
                 interval_ms k = period (timer_opt_ t) /\
                 next_fire_duration_ms k = period (timer_opt_ t) /\
                 last_execute_time_ns k = 0 /\
                 accumulated_error_ns k = 0).
Proof.
  intros Hp Ht.
  destruct (Z.eq_dec (period (timer_opt_ t)) 0) as [E|E].
  - exists false, t, (emit EvErrorPeriodZero s).
    split; [apply InitTimerTask_zero; exact E|].
    split; [tauto|]. split; [|discriminate].
    intros _. cbn. auto.
  - destruct (Z_le_gt_dec TIMER_MAX_INTERVAL_MS (period (timer_opt_ t))) as [Hle|Hgt].
    + exists false, t, (emit EvErrorPeriodTooLarge s).
      split; [apply InitTimerTask_too_large; assumption|].
      split; [tauto|]. split; [|discriminate].
      intros _. cbn. auto.
    + destruct (InitTimerTask_success t s Ht) as (s' & E' & Hk & Hq & Htr); [lia|].
      exists true, (set_task_ (Some (next_addr s)) t), s'.
      split; [exact E'|].
      split; [split; [discriminate|lia]|]. split; [discriminate|].
      intros _. cbn. split; [reflexivity|]. split; [exact Hq|]. split; [exact Htr|].
      eexists. split; [exact Hk|]. cbn. auto.
Qed.

(** C3, as the code has it: on an invocation of the periodic callback whose
    weak reference resolves and whose user callback returns, the next
    offset is decided as follows.  [execute_time_ms] and
    [accumulated_error_ms] are [llround] of the binary64 quotient by 10^6
    of the running time and of [accumulated_error_ns]: the integer nearest
    to that double, halfway cases away from zero.  If
    [execute_time_ms >= interval_ms] the next offset is
    [TIMER_RESOLUTION_MS]; otherwise it is
    [interval_ms - execute_time_ms - accumulated_error_ms] when
    [interval_ms - execute_time_ms - TIMER_RESOLUTION_MS >= accumulated_error_ms]
    as signed integers, and [TIMER_RESOLUTION_MS] when not.  The decision
    leaves [accumulated_error_ns] as the accumulation step set it, and the
    task is submitted with the offset decided.  When the user's callback
    throws, nothing is decided: the task and the wheel stay as they were. *)
Theorem periodic_callback_next_fire_decision cb w start end_ s k n :
  0 <= TIMER_RESOLUTION_MS <= 2 ^ 63 ->
  heap s !! w = Some {| obj := k; use_count := S n |} -> mutex k = false ->
  0 <= interval_ms k < 2 ^ 63 ->
  periodic_callback cb w start Threw s = Some (emit (EvUser cb) s) /\
  exists s' k',
    periodic_callback cb w start (Returned end_) s = Some s' /\
    heap s' !! w = Some {| obj := k'; use_count := S n |} /\
    wheel s' = wheel s ++ [{| sub_task := w;
                              sub_delay_ms := next_fire_duration_ms k';
                              sub_callback := callback k |}] /\
    let execute_time_ms := execute_time_ms_of start end_ in
    let error_ns := accumulated_error_ns (accumulate_error start k) in
    let accumulated_error_ms := ns_to_ms error_ns in
    nearest_half_away (quotient_1e6 (wrap64 (end_ - start))) execute_time_ms /\
    (- 2 ^ 63 <= accumulated_error_ns k < 2 ^ 63 ->
       nearest_half_away (quotient_1e6 error_ns) accumulated_error_ms) /\
    accumulated_error_ns k' = error_ns /\
    (interval_ms k <= execute_time_ms ->
       next_fire_duration_ms k' = TIMER_RESOLUTION_MS) /\
    (execute_time_ms < interval_ms k ->
       (accumulated_error_ms <= interval_ms k - execute_time_ms - TIMER_RESOLUTION_MS ->
          next_fire_duration_ms k'
          = interval_ms k - execute_time_ms - accumulated_error_ms) /\
       (interval_ms k - execute_time_ms - TIMER_RESOLUTION_MS < accumulated_error_ms ->
          next_fire_duration_ms k' = TIMER_RESOLUTION_MS)).
Proof.
  intros HR Hk Hm Hi.
  split; [apply (periodic_callback_threw _ _ _ _ _ _ Hk Hm)|].
  eexists _, _. split; [apply (periodic_callback_alive _ _ _ _ _ _ _ Hk Hm)|].
  split; [apply lookup_insert_eq|]. split; [reflexivity|].
  cbv zeta.
  split; [apply execute_time_ms_is_nearest|].
  split.
  { intros Ha. apply ns_to_ms_is_nearest.
    pose proof (accumulate_error_range start k Ha). lia. }
  unfold drift_compensate.
  set (exec := execute_time_ms_of start end_).
  set (k1 := accumulate_error start k).
  assert (Hi1 : interval_ms k1 = interval_ms k) by apply accumulate_error_interval.
  pose proof (execute_time_ms_range start end_) as He. fold exec in He.
  destruct (next_fire_frame exec k1) as (_ & Ha & _).
  split; [exact Ha|].
  rewrite next_fire_value by (try assumption; lia).
  rewrite Hi1.
  split.
  - intros Hle. destruct (Z.leb_spec (interval_ms k) exec); [reflexivity|lia].
  - intros Hlt. destruct (Z.leb_spec (interval_ms k) exec); [lia|].
    split; intros Hc;
      destruct (Z.leb_spec (ns_to_ms (accumulated_error_ns k1))
                  (interval_ms k - exec - TIMER_RESOLUTION_MS)); try reflexivity; lia.
Qed.

End TaskClaims.

Lemma sample_started_task :
  heap (sample_started 100 false).2 !! 0%nat
  = Some {| obj := sample_task 100 false; use_count := 1 |}.
Proof. vm_compute. reflexivity. Qed.

(** The task of the sample handle after a first firing at 1 s. *)
Lemma sample_after_first :
  heap (sample_after [(1000000000, Returned 1030000000)]) !! 0%nat
  = Some {| obj := {| task_timer_id := 0; callback := Some (sample_closure false);
                      interval_ms := 100; next_fire_duration_ms := 70;
                      accumulated_error_ns := 0;
                      last_execute_time_ns := 1000000000; mutex := false |};
            use_count := 1 |}.
Proof. vm_compute. reflexivity. Qed.

(** A second firing 103.5 ms after the first, the user's callback running
    29.6 ms: the drift of 3.5 ms counts as 4 ms, the running time as 30 ms,
    and the task is submitted again with an offset of 100 - 30 - 4 ms. *)
Lemma periodic_callback_next_fire_decision_witness :
  exists s',
    periodic_callback (W := apollo_wheel) 7 0 1103500000 (Returned 1133100000)
      (sample_after [(1000000000, Returned 1030000000)]) = Some s' /\
    execute_time_ms_of 1103500000 1133100000 = 30 /\
    accumulated_error_ns <$> task_at 0 s' = Some 3500000 /\
    next_fire_duration_ms <$> task_at 0 s' = Some 66 /\
    sub_delay_ms <$> last (wheel s') = Some 66.
Proof.
  destruct (periodic_callback_next_fire_decision (W := apollo_wheel)
              7 0%nat 1103500000 1133100000
              (sample_after [(1000000000, Returned 1030000000)]) _ 0%nat
              ltac:(cbn; lia) sample_after_first eq_refl ltac:(cbn; lia))
    as (_ & s' & k' & E & Hk & Hq & Hexec & Herr & Hacc & _ & Hshort).
  assert (He : execute_time_ms_of 1103500000 1133100000 = 30).
  { apply (nearest_half_away_unique _ _ _ Hexec).
    vm_compute. repeat split; first [discriminate|reflexivity]. }
  assert (Ha : accumulated_error_ns k' = 3500000).
  { rewrite Hacc. vm_compute. reflexivity. }
  rewrite <- Hacc, Ha in Herr.
  assert (Hr : ns_to_ms 3500000 = 4).
  { apply (nearest_half_away_unique _ _ _ (Herr ltac:(cbn; lia))).
    vm_compute. repeat split; first [discriminate|reflexivity]. }
  assert (Hn : next_fire_duration_ms k' = 66).
  { rewrite He, <- Hacc, Ha, Hr in Hshort. cbn in Hshort.
    destruct Hshort as [Hfit _]; [lia|]. rewrite Hfit; lia. }
  exists s'. split; [exact E|]. split; [exact He|].
  unfold task_at. rewrite Hk, Hq, last_snoc. cbn. rewrite Ha, Hn. auto.
Defined.

Lemma task_at_lookup a s k n :
  heap s !! a = Some {| obj := k; use_count := n |} -> task_at a s = Some k.
Proof. intros H. unfold task_at. rewrite H. reflexivity. Qed.

Lemma sample_started_long :
  heap (sample_started 65535 false).2 !! 0%nat
  = Some {| obj := sample_task 65535 false; use_count := 1 |}.
Proof. vm_compute. reflexivity. Qed.

Lemma last_start_repeat {A : Type} (st : Z) (en : A) n :
  last_start st (repeat (st, en) n) = st.
Proof. induction n as [|n IH]; cbn; [reflexivity|exact IH]. Qed.

(** The task after the readings of [early_run]: the error accumulated
    over 262149 early firings is -17179869184.499999 ms, and the offset is
    decided from its double. *)
Lemma early_run_task n :
  Z.of_nat n = 262148 ->
  let k := firings (W := apollo_wheel)
             ((1000000000, 1000000000) :: repeat (1000000000, 1000000000) n
              ++ [(66530500001, 66530500001)])
             (sample_task 65535 false) in
  interval_ms k = 65535 /\
  accumulated_error_ns k = -17179869184499999 /\
  next_fire_duration_ms k = 17179934720.
Proof.
  intros Hn.
  set (k0 := sample_task 65535 false).
  set (T0 := 1000000000).
  set (k1 := drift_compensate (W := apollo_wheel) T0 T0 k0).
  set (K := firings (W := apollo_wheel) (repeat (T0, T0) n) k1).
  assert (Hk1 : interval_ms k1 = 65535 /\ last_execute_time_ns k1 = T0
                /\ accumulated_error_ns k1 = 0).
  { vm_compute. auto. }
  destruct Hk1 as (Hi1 & Hl1 & Ha1).
  destruct (firings_error (W := apollo_wheel) T0 (repeat (T0, T0) n) k1 0)
    as (HlK & HaK).
  { rewrite Hl1. discriminate. }
  { rewrite Hl1, Ha1. reflexivity. }
  { apply List.Forall_forall. intros r Hr. apply repeat_spec in Hr. subst r.
    discriminate. }
  fold K in HlK, HaK.
  rewrite Hl1, last_start_repeat in HlK.
  rewrite Hl1, last_start_repeat, Hi1, repeat_length, Nat.add_0_l, Hn in HaK.
  assert (HiK : interval_ms K = 65535).
  { unfold K. destruct (firings_frame (W := apollo_wheel) (repeat (T0, T0) n) k1)
      as (-> & _). exact Hi1. }
  change (firings (W := apollo_wheel)
            ((T0, T0) :: repeat (T0, T0) n ++ [(66530500001, 66530500001)]) k0)
    with (firings (W := apollo_wheel)
            (repeat (T0, T0) n ++ [(66530500001, 66530500001)]) k1).
  rewrite firings_app. fold K.
  change (firings (W := apollo_wheel) [(66530500001, 66530500001)] K)
    with (drift_compensate (W := apollo_wheel) 66530500001 66530500001 K).
  cbv zeta.
  assert (Hacc : accumulated_error_ns
                   (accumulate_error 66530500001 K)
                 = -17179869184499999).
  { rewrite accumulate_error_later by (rewrite HlK; discriminate).
    rewrite HaK, HlK, HiK. vm_compute. reflexivity. }
  destruct (drift_compensate_frame (W := apollo_wheel) 66530500001 66530500001 K)
    as (Hi & _).
  split; [rewrite Hi; exact HiK|].
  split; [rewrite drift_compensate_error; exact Hacc|].
  unfold drift_compensate.
  rewrite next_fire_value.
  - rewrite accumulate_error_interval, HiK, Hacc. vm_compute. reflexivity.
  - cbn. lia.
  - rewrite accumulate_error_interval, HiK. lia.
  - apply execute_time_ms_range.
Qed.

(** Two invocations that the decision of the claim does not describe.
    (1) A period of 1 ms and a first invocation whose user callback throws:
    the offset stays 1 ms and nothing is submitted, where the decision of
    the claim gives 2 ms whatever the running time was.  (2) A period of
    65535 ms and the readings of [early_run], the user's callback
    returning every time: the accumulated error is -17179869184.499999 ms;
    as a double, divided by 1e6, it is -17179869184.5, which [llround]
    makes -17179869185, where the rounding of the exact quotient is
    -17179869184: the offset decided is 17179934720 ms, not 17179934719. *)
Lemma next_fire_decision_counterexample :
  (exists s1 k,
     periodic_callback (W := apollo_wheel) 7 0 1000000000 Threw
       (sample_started 1 false).2 = Some s1 /\
     task_at 0 s1 = Some k /\
     wheel s1 = wheel (sample_started 1 false).2 /\
     forall execute_time_ms,
       0 <= execute_time_ms ->
       next_fire_duration_ms k
       <> claimed_next_fire (W := apollo_wheel) execute_time_ms k) /\
  (exists s1 k,
     invoke_all (W := apollo_wheel) (sample_closure false) (returning early_run)
       (sample_started 65535 false).2 = Some s1 /\
     task_at 0 s1 = Some k /\
     nondecreasing 0 early_run /\
     execute_time_ms_of 66530500001 66530500001 = 0 /\
     accumulated_error_ns k = -17179869184499999 /\
     next_fire_duration_ms k = 17179934720 /\
     claimed_next_fire (W := apollo_wheel) 0 k = 17179934719).
Proof.
  split.
  - eexists _, _. split; [vm_compute; reflexivity|].
    split; [vm_compute; reflexivity|]. split; [vm_compute; reflexivity|].
    intros e He. unfold claimed_next_fire. cbn.
    destruct (Z.leb_spec 1 e) as [H|H]; [discriminate|].
    assert (E : e = 0) by lia. subst e. vm_compute. discriminate.
  - destruct (invoke_all_firings (W := apollo_wheel) (sample_closure false) 0%nat
                (returning early_run) (sample_started 65535 false).2
                (sample_task 65535 false) eq_refl eq_refl sample_started_long eq_refl)
      as (s1 & E & Hk & _).
    rewrite returned_returning in Hk.
    destruct (early_run_task (Z.to_nat 262148) (Z2Nat.id 262148 ltac:(lia)))
      as (Hi & Ha & Hn).
    fold early_run in Hi, Ha, Hn.
    exists s1, (firings (W := apollo_wheel) early_run (sample_task 65535 false)).
    split; [exact E|].
    split; [exact (task_at_lookup _ _ _ _ Hk)|].
    split.
    { unfold early_run. split; [lia|].
      apply (nondecreasing_app 1000000000
               (repeat (1000000000, 1000000000) (Z.to_nat 262148))
               [(66530500001, 66530500001)]).
      rewrite last_start_repeat. split; [|cbn; lia].
      generalize (Z.to_nat 262148). intros n.
      induction n as [|n IH]; cbn; [exact I|]. split; [lia|exact IH]. }
    split; [vm_compute; reflexivity|].
    split; [exact Ha|]. split; [exact Hn|].
    unfold claimed_next_fire. rewrite Hi, Ha. vm_compute. reflexivity.
Qed.

(** A period of 100 ms passes the check; the new task starts from
    [interval_ms = next_fire_duration_ms = 100]. *)
Lemma InitTimerTask_validates_period_witness :
  exists ok t' s',
    InitTimerTask (W := apollo_wheel) (sample_timer 100 false).1 (sample_timer 100 false).2
    = (ok, t', s') /\ ok = true /\
    next_fire_duration_ms <$> task_at 0 s' = Some 100.
Proof.
  destruct (InitTimerTask_validates_period (W := apollo_wheel)
              (sample_timer 100 false).1 (sample_timer 100 false).2)
    as (ok & t' & s' & E & Hiff & _ & Hok).
  - cbn. lia.
  - discriminate.
  - exists ok, t', s'. split; [exact E|].
    assert (Ht : ok = true).
    { destruct ok; [reflexivity|]. exfalso.
      destruct Hiff as [Hf _]. destruct (Hf eq_refl) as [H|H]; cbn in H; lia. }
    split; [exact Ht|].
    destruct (Hok Ht) as (_ & _ & _ & k & Hk & _ & Hn & _).
    unfold task_at. change (next_addr (sample_timer 100 false).2) with 0%nat in Hk.
    rewrite Hk. cbn. f_equal. exact Hn.
Defined.

Section RunClaims.
Context {W : TimingWheelConstants}.

Lemma oneshot_firings c w rs : forall s k,
  cb_oneshot c = true -> cb_weak c = w ->
  heap s !! w = Some {| obj := k; use_count := 1 |} -> mutex k = false ->
  exists s',
    invoke_all c rs s = Some s' /\ heap s' = heap s /\ wheel s' = wheel s.
Proof.
  induction rs as [|[st en] rs IH]; intros s k Hc Hw Hk Hm.
  - exists s. cbn. auto.
  - cbn. unfold invoke. rewrite Hc, Hw.
    rewrite (oneshot_callback_alive _ _ _ _ _ Hk Hm). cbn.
    destruct (IH (emit (EvUser (cb_user c)) s) k Hc Hw Hk Hm) as (s' & E & Hh & Hq).
    exists s'. auto.
Qed.

(** C4, as the code has it: on every invocation of the periodic callback
    whose weak reference resolves and whose user callback returns, in the
    life of a task that [Start] created and under a clock that never goes
    back: when [last_execute_time_ns] is 0 (first firing)
    [accumulated_error_ns] is 0 and stays 0; otherwise it becomes, in signed
    64-bit arithmetic, its old value plus
    [(start - last_execute_time_ns) - interval_ms * 1000000] (exactly that
    sum when it fits 64 bits); in both cases [last_execute_time_ns] becomes
    [start].  An invocation whose user callback throws leaves both fields. *)
Theorem periodic_callback_accumulated_error t s rs start end_ :
  reality_mode s = true -> idle t -> oneshot (timer_opt_ t) = false ->
  0 < period (timer_opt_ t) < TIMER_MAX_INTERVAL_MS ->
  nondecreasing 0 (rs ++ [(start, Returned end_)]) ->
  let w := next_addr s in
  let cb := opt_callback (timer_opt_ t) in
  let c := {| cb_oneshot := false; cb_user := cb; cb_weak := w |} in
  exists s1 k s2 k',
    invoke_all c rs (Start t s).2 = Some s1 /\
    heap s1 !! w = Some {| obj := k; use_count := 1 |} /\
    periodic_callback cb w start Threw s1 = Some (emit (EvUser cb) s1) /\
    periodic_callback cb w start (Returned end_) s1 = Some s2 /\
    heap s2 !! w = Some {| obj := k'; use_count := 1 |} /\
    last_execute_time_ns k' = start /\
    (last_execute_time_ns k = 0 ->
       accumulated_error_ns k = 0 /\ accumulated_error_ns k' = 0) /\
    (last_execute_time_ns k <> 0 ->
       let sum := accumulated_error_ns k
                  + ((start - last_execute_time_ns k) - interval_ms k * 1000000) in
       accumulated_error_ns k' = to_int64 sum /\
       (- 2 ^ 63 <= sum < 2 ^ 63 -> accumulated_error_ns k' = sum)).
Proof.
  intros Hr Hi Hos Hp Hclock w cb c.
  apply nondecreasing_app in Hclock as [Hrs _].
  destruct (Start_gives_running t s Hr Hi Hp) as (_ & _ & k0 & Hk0 & Hm0).
  assert (Hfresh : last_execute_time_ns k0 = 0 /\ accumulated_error_ns k0 = 0).
  { rewrite Start_valid in Hk0 by assumption. cbn in Hk0.
    rewrite lookup_insert_eq in Hk0. injection Hk0 as <-. cbn. auto. }
  destruct Hfresh as [Hl0 Ha0].
  destruct (periodic_firings c w rs (Start t s).2 k0 0 eq_refl eq_refl Hk0 Hm0)
    as (s1 & k & E1 & Hk & Hm & _ & Hinv & Hpos).
  { auto. } { lia. } { exact Hrs. }
  exists s1, k. eexists _, _.
  split; [exact E1|]. split; [exact Hk|].
  split; [apply (periodic_callback_threw _ _ _ _ _ _ Hk Hm)|].
  split; [apply (periodic_callback_alive _ _ _ _ _ _ _ Hk Hm)|].
  cbn. split; [apply lookup_insert_eq|].
  destruct (drift_compensate_frame start end_ k) as (_ & Hl' & _).
  split; [exact Hl'|].
  rewrite drift_compensate_error. split.
  - intros Hz. rewrite accumulate_error_first by exact Hz. auto.
  - intros Hnz. rewrite accumulate_error_later by exact Hnz.
    split; [reflexivity|]. intros Hfit. apply to_int64_small. exact Hfit.
Qed.

(** C5, as the code has it: a new task has
    [next_fire_duration_ms = period], which is at least
    [TIMER_RESOLUTION_MS] only when the period is, and keeps it through the
    invocations whose user callback throws (and through all of them when
    the task is one-shot); from the first execution of the periodic
    callback in which the user's callback returns,
    [next_fire_duration_ms >= TIMER_RESOLUTION_MS]. *)
Theorem next_fire_at_least_resolution_after_firing t s rs :
  0 <= TIMER_RESOLUTION_MS <= 2 ^ 63 ->
  reality_mode s = true -> idle t ->
  0 < period (timer_opt_ t) < TIMER_MAX_INTERVAL_MS ->
  period (timer_opt_ t) < 2 ^ 32 ->
  let w := next_addr s in
  let c := {| cb_oneshot := oneshot (timer_opt_ t);
              cb_user := opt_callback (timer_opt_ t); cb_weak := w |} in
  exists s1 k,
    invoke_all c rs (Start t s).2 = Some s1 /\
    heap s1 !! w = Some {| obj := k; use_count := 1 |} /\
    (oneshot (timer_opt_ t) = true \/ returned rs = [] ->
       next_fire_duration_ms k = period (timer_opt_ t)) /\
    (oneshot (timer_opt_ t) = false -> returned rs <> [] ->
       TIMER_RESOLUTION_MS <= next_fire_duration_ms k) /\
    (TIMER_RESOLUTION_MS <= period (timer_opt_ t) ->
       TIMER_RESOLUTION_MS <= next_fire_duration_ms k).
Proof.
  intros HR Hr Hi Hp H32 w c.
  destruct (Start_gives_running t s Hr Hi Hp) as (_ & _ & k0 & Hk0 & Hm0).
  assert (Hfresh : next_fire_duration_ms k0 = period (timer_opt_ t)
                   /\ interval_ms k0 = period (timer_opt_ t)).
  { rewrite Start_valid in Hk0 by assumption. cbn in Hk0.
    rewrite lookup_insert_eq in Hk0. injection Hk0 as <-. cbn. auto. }
  destruct Hfresh as [Hn0 Hi0].
  destruct (oneshot (timer_opt_ t)) eqn:Hos.
  - destruct (oneshot_firings c w rs (Start t s).2 k0 eq_refl eq_refl Hk0 Hm0)
      as (s1 & E & Hh & _).
    exists s1, k0. rewrite Hh.
    repeat split; try assumption; try discriminate; intros; lia.
  - destruct (invoke_all_firings c w rs (Start t s).2 k0 eq_refl eq_refl Hk0 Hm0)
      as (s1 & E & Hk & _).
    exists s1, (firings (returned rs) k0). split; [exact E|]. split; [exact Hk|].
    assert (Hfired : returned rs <> [] ->
                     TIMER_RESOLUTION_MS
                     <= next_fire_duration_ms (firings (returned rs) k0)).
    { intros Hne. apply firings_at_least_resolution; [exact HR|lia|exact Hne]. }
    split; [intros [Hf| ->]; [discriminate|exact Hn0]|].
    split; [intros _; exact Hfired|].
    intros Hge. destruct (returned rs) as [|r rs'] eqn:Hrs.
    + cbn. lia.
    + apply Hfired. discriminate.
Qed.

End RunClaims.

(** A first firing at 1 s, an invocation whose user callback throws, and a
    firing 103 ms after the first: the drift is 3 ms. *)
Lemma periodic_callback_accumulated_error_witness :
  exists s2,
    (s1 ← invoke_all (W := apollo_wheel) (sample_closure false)
            [(1000000000, Returned 1030000000); (1050000000, Threw)]
            (sample_started 100 false).2;
     periodic_callback (W := apollo_wheel) 7 0 1103000000 (Returned 1133000000) s1)
    = Some s2 /\
    accumulated_error_ns <$> task_at 0 s2 = Some 3000000.
Proof.
  destruct (periodic_callback_accumulated_error (W := apollo_wheel)
              (sample_timer 100 false).1 (sample_timer 100 false).2
              [(1000000000, Returned 1030000000); (1050000000, Threw)]
              1103000000 1133000000)
    as (s1 & k & s2 & k' & E1 & Hk & _ & E2 & Hk' & _ & _ & Hlater).
  - reflexivity.
  - split; reflexivity.
  - reflexivity.
  - cbn. lia.
  - cbn. lia.
  - exists s2. change (Start (sample_timer 100 false).1 (sample_timer 100 false).2)
      with (sample_started 100 false) in E1.
    change (invoke_all _ _ _ = Some s1)
      with (invoke_all (W := apollo_wheel) (sample_closure false)
              [(1000000000, Returned 1030000000); (1050000000, Threw)]
              (sample_started 100 false).2 = Some s1) in E1.
    rewrite E1. cbn. split; [exact E2|].
    unfold task_at.
    change (next_addr (sample_timer 100 false).2) with 0%nat in Hk, Hk'.
    rewrite Hk'. cbn. f_equal.
    assert (Ek : k = drift_compensate (W := apollo_wheel) 1000000000 1030000000
                       (sample_task 100 false)).
    { vm_compute in E1. injection E1 as <-. vm_compute in Hk.
      injection Hk as <-. vm_compute. reflexivity. }
    destruct Hlater as [_ Hfit].
    + rewrite Ek. vm_compute. discriminate.
    + rewrite Hfit; rewrite Ek; vm_compute; [reflexivity|split; [discriminate|reflexivity]].
Defined.

(** After a first firing at 1 s, an invocation 103 ms later whose weak
    reference resolves and whose user callback throws: [last_execute_time_ns]
    is not set to its [start] and the drift of 3 ms is not accumulated. *)
Lemma accumulated_error_skipped_on_throw :
  exists s2 k',
    last_execute_time_ns
      <$> task_at 0 (sample_after [(1000000000, Returned 1030000000)])
    = Some 1000000000 /\
    periodic_callback (W := apollo_wheel) 7 0 1103000000 Threw
      (sample_after [(1000000000, Returned 1030000000)]) = Some s2 /\
    task_at 0 s2 = Some k' /\
    last_execute_time_ns k' <> 1103000000 /\
    accumulated_error_ns k'
    <> to_int64 (0 + ((1103000000 - 1000000000) - 100 * 1000000)).
Proof.
  eexists _, _. split; [vm_compute; reflexivity|].
  split; [vm_compute; reflexivity|].
  split; [vm_compute; reflexivity|].
  split; vm_compute; discriminate.
Qed.

(** With the constants of the Apollo tree a period of 1 ms is valid, and
    the new task asks for a delay of 1 ms, below the resolution of 2 ms;
    an execution of the periodic callback in which the user's callback
    throws leaves it there. *)
Lemma next_fire_below_resolution_at_creation :
  0 < 1 < @TIMER_MAX_INTERVAL_MS apollo_wheel /\
  next_fire_duration_ms <$> task_at 0 (sample_started 1 false).2 = Some 1 /\
  ~ (@TIMER_RESOLUTION_MS apollo_wheel <= 1) /\
  exists s1,
    periodic_callback (W := apollo_wheel) 7 0 1000000000 Threw (sample_started 1 false).2
    = Some s1 /\
    next_fire_duration_ms <$> task_at 0 s1 = Some 1.
Proof.
  split; [cbn; lia|]. split; [vm_compute; reflexivity|]. split; [cbn; lia|].
  eexists. split; vm_compute; reflexivity.
Qed.

(** Whatever the constants of the wheel are: with a resolution above 1 ms
    and a maximum above 1 ms, a period of 1 ms is valid and the task that
    [Start] creates asks for 1 ms, less than the resolution. *)
Lemma next_fire_below_any_resolution {W : TimingWheelConstants} t s :
  1 < TIMER_RESOLUTION_MS -> 1 < TIMER_MAX_INTERVAL_MS ->
  reality_mode s = true -> idle t -> period (timer_opt_ t) = 1 ->
  exists k, heap (Start t s).2 !! next_addr s = Some {| obj := k; use_count := 1 |} /\
            next_fire_duration_ms k < TIMER_RESOLUTION_MS.
Proof.
  intros HR HM Hr Hi Hp.
  rewrite Start_valid by (try assumption; lia). cbn.
  eexists. split; [apply lookup_insert_eq|]. cbn. lia.
Qed.

(** A period of 100 ms, a firing, and an invocation whose user callback
    throws: the delay asked for is at least 2 ms. *)
Lemma next_fire_at_least_resolution_after_firing_witness :
  exists s1 k,
    invoke_all (W := apollo_wheel) (sample_closure false)
      [(1000000000, Returned 1030000000); (1103000000, Threw)]
      (sample_started 100 false).2 = Some s1 /\
    heap s1 !! 0%nat = Some {| obj := k; use_count := 1 |} /\
    2 <= next_fire_duration_ms k.
Proof.
  destruct (next_fire_at_least_resolution_after_firing (W := apollo_wheel)
              (sample_timer 100 false).1 (sample_timer 100 false).2
              [(1000000000, Returned 1030000000); (1103000000, Threw)])
    as (s1 & k & E & Hk & _ & Hfired & _).
  - cbn. lia.
  - reflexivity.
  - split; reflexivity.
  - cbn. lia.
  - cbn. lia.
  - exists s1, k. split; [exact E|]. split; [exact Hk|].
    apply Hfired; [reflexivity|discriminate].
Defined.

(** ** The claims about the handle *)

Section HandleClaims.
Context {W : TimingWheelConstants}.

Lemma InitTimerTask_keeps_started t s :
  started_ (InitTimerTask t s).1.2 = started_ t.
Proof.
  unfold InitTimerTask.
  destruct (_ =? 0); [reflexivity|].
  destruct (_ <=? _); reflexivity.
Qed.

Lemma AddTask_reality a s : reality_mode (AddTask a s) = reality_mode s.
Proof. unfold AddTask. destruct (heap s !! a); reflexivity. Qed.

Lemma shared_release_reality a s : reality_mode (shared_release a s) = reality_mode s.
Proof.
  unfold shared_release. destruct (heap s !! a) as [c|]; [|reflexivity].
  destruct (use_count c) as [|[|n]]; reflexivity.
Qed.

Lemma InitTimerTask_reality t s :
  reality_mode (InitTimerTask t s).2 = reality_mode s.
Proof.
  unfold InitTimerTask.
  destruct (_ =? 0); [reflexivity|].
  destruct (_ <=? _); [reflexivity|].
  cbn. destruct (task_ t); cbn; [rewrite shared_release_reality|]; reflexivity.
Qed.

Lemma Start_sets_started t s :
  reality_mode s = true ->
  started_ (Start t s).1 = true /\ reality_mode (Start t s).2 = true.
Proof.
  intros Hr. unfold Start. rewrite Hr. cbn.
  destruct (started_ t) eqn:Hs; cbn; [auto|].
  pose proof (InitTimerTask_keeps_started (set_started_ true t) s) as Hk.
  pose proof (InitTimerTask_reality (set_started_ true t) s) as Hm.
  destruct (InitTimerTask (set_started_ true t) s) as [[ok t2] s1].
  cbn in Hk, Hm. destruct ok; cbn; [|split; congruence].
  destruct (task_ t2); cbn; [|split; congruence].
  rewrite AddTask_reality. split; congruence.
Qed.

Lemma Start_twice t s : Start (Start t s).1 (Start t s).2 = Start t s.
Proof.
  destruct (reality_mode s) eqn:Hr.
  - destruct (Start_sets_started t s Hr) as [Hs _].
    rewrite Start_started by exact Hs. destruct (Start t s); reflexivity.
  - rewrite !(Start_replay t s) by exact Hr. reflexivity.
Qed.

Lemma Stop_clears_started t s t1 s1 :
  Stop t s = Some (t1, s1) -> started_ t1 = false.
Proof.
  unfold Stop. cbn. destruct (started_ t); [|intros [= <- _]; reflexivity].
  destruct (task_ t) as [a|]; [|intros [= <- _]; reflexivity].
  destruct (mutex_acquire a _); cbn; [|discriminate].
  intros [= <- _]. reflexivity.
Qed.

Lemma Stop_twice t s t1 s1 :
  Stop t s = Some (t1, s1) -> Stop t1 s1 = Some (t1, s1).
Proof. intros E. apply Stop_not_started. exact (Stop_clears_started _ _ _ _ E). Qed.

(** C1, as the code has it: [Start] in reality mode on an idle handle with
    an invalid period writes the error line and leaves the task unset, but
    [started_] stays true; a later [Start] does nothing, whatever the
    configuration then is, until [Stop] has cleared the flag, after which
    [Start] with a valid period creates and submits the task. *)
Theorem Start_invalid_period_stays_started t s opt :
  reality_mode s = true -> idle t ->
  period (timer_opt_ t) = 0 \/ TIMER_MAX_INTERVAL_MS <= period (timer_opt_ t) ->
  0 < period opt < TIMER_MAX_INTERVAL_MS ->
  exists e t1 s1,
    Start t s = (t1, s1) /\
    (e = EvErrorPeriodZero \/ e = EvErrorPeriodTooLarge) /\ s1 = emit e s /\
    task_ t1 = None /\ started_ t1 = true /\
    Start (SetTimerOption opt t1) s1 = (SetTimerOption opt t1, s1) /\
    exists t2,
      Stop t1 s1 = Some (t2, s1) /\ idle t2 /\
      running (Start (SetTimerOption opt t2) s1).1
              (Start (SetTimerOption opt t2) s1).2 (next_addr s1) /\
      length (wheel (Start (SetTimerOption opt t2) s1).2) = S (length (wheel s1)).
Proof.
  intros Hr [Hs Ht] Hbad Hgood.
  set (e := if period (timer_opt_ t) =? 0 then EvErrorPeriodZero
            else EvErrorPeriodTooLarge).
  exists e, (set_started_ true t), (emit e s).
  split; [apply Start_invalid; assumption|].
  split; [unfold e; destruct (period (timer_opt_ t) =? 0); auto|].
  split; [reflexivity|].
  split; [exact Ht|]. split; [reflexivity|].
  split; [apply Start_started; reflexivity|].
  exists (set_started_ false (set_started_ true t)).
  split; [apply Stop_no_task; exact Ht|].
  assert (Hidle : idle (SetTimerOption opt (set_started_ false (set_started_ true t))))
    by (split; [reflexivity|exact Ht]).
  split; [split; [reflexivity|exact Ht]|].
  split.
  - apply Start_gives_running; [exact Hr|exact Hidle|exact Hgood].
  - rewrite Start_valid; [|exact Hr|exact Hidle|exact Hgood].
    cbn. rewrite length_app. cbn. lia.
Qed.

(** What [Stop] leaves alone, and what it clears, whenever it returns. *)
Lemma Stop_frame t s t1 s1 :
  Stop t s = Some (t1, s1) ->
  started_ t1 = false /\ timer_opt_ t1 = timer_opt_ t /\
  (started_ t = true -> task_ t1 = None) /\
  reality_mode s1 = reality_mode s /\ next_addr s1 = next_addr s /\
  wheel s1 = wheel s.
Proof.
  unfold Stop. cbn.
  destruct (started_ t) eqn:Hs; [|intros [= <- <-]; cbn; repeat split; discriminate].
  destruct (task_ t) as [a|] eqn:Ht; [|intros [= <- <-]; cbn; repeat split; auto].
  destruct (mutex_acquire a _) as [s3|] eqn:E; cbn; [|discriminate].
  intros [= <- <-].
  unfold mutex_acquire in E.
  destruct (heap _ !! a) as [c|]; [|discriminate].
  destruct (mutex (obj c)); [discriminate|]. injection E as <-.
  unfold mutex_release.
  match goal with |- context [update_task a (set_mutex false) (shared_release a ?x)] =>
    destruct (shared_release_shape a x) as (h & -> & _) end.
  match goal with |- context [shared_release a ?x] =>
    destruct (shared_release_shape a x) as (h' & -> & _) end.
  cbn. repeat split; reflexivity.
Qed.

(** C2, as the code has it: [Stop] on a started handle returns unless the
    mutex of the task is held, and after it has returned [started_] is
    false and the handle holds no task.  That is the idle state and not a
    terminal one: a later [Start] on the same handle (reality mode, valid
    period) creates a new task, held by the handle, and submits it. *)
Theorem Stop_then_Start_runs_again t s :
  reality_mode s = true -> started_ t = true ->
  0 < period (timer_opt_ t) < TIMER_MAX_INTERVAL_MS ->
  (stoppable t s -> exists t1 s1, Stop t s = Some (t1, s1)) /\
  (forall t1 s1,
     Stop t s = Some (t1, s1) ->
     idle t1 /\
     running (Start t1 s1).1 (Start t1 s1).2 (next_addr s) /\
     next_addr (Start t1 s1).2 = S (next_addr s) /\
     wheel (Start t1 s1).2
     = wheel s ++ [{| sub_task := next_addr s;
                      sub_delay_ms := period (timer_opt_ t);
                      sub_callback :=
                        Some {| cb_oneshot := oneshot (timer_opt_ t);
                                cb_user := opt_callback (timer_opt_ t);
                                cb_weak := next_addr s |} |}]).
Proof.
  intros Hr Hs Hp. split.
  - unfold stoppable. intros Hst. destruct (task_ t) as [a|] eqn:Ht.
    + destruct Hst as (k & n & Hk & Hm).
      eexists _, _. apply (Stop_alive _ _ _ _ _ Hs Ht Hk Hm).
    + eexists _, _. apply Stop_no_task. exact Ht.
  - intros t1 s1 E.
    destruct (Stop_frame t s t1 s1 E) as (Hs1 & Ho & Ht1 & Hr1 & Hn1 & Hq1).
    assert (Hidle : idle t1) by (split; [exact Hs1|exact (Ht1 Hs)]).
    split; [exact Hidle|].
    rewrite <- Ho in Hp. rewrite <- Hr1 in Hr.
    split; [rewrite <- Hn1; apply Start_gives_running; assumption|].
    rewrite Start_valid by assumption. cbn. rewrite Hn1, Hq1, Ho. auto.
Qed.

(** C9: [Start] twice in a row is [Start] once, and [Stop] twice is [Stop]
    once, in every state.  On an idle handle with a valid period in reality
    mode the first [Start] creates one task and makes one submission; on a
    running handle the first [Stop] releases the task. *)
Theorem Start_Stop_idempotent t s :
  Start (Start t s).1 (Start t s).2 = Start t s /\
  (forall t1 s1, Stop t s = Some (t1, s1) -> Stop t1 s1 = Some (t1, s1)) /\
  (reality_mode s = true -> idle t ->
   0 < period (timer_opt_ t) < TIMER_MAX_INTERVAL_MS ->
     next_addr (Start t s).2 = S (next_addr s) /\
     length (wheel (Start t s).2) = S (length (wheel s)) /\
     task_ (Start t s).1 = Some (next_addr s)) /\
  (forall a, running t s a ->
     exists t1 s1, Stop t s = Some (t1, s1) /\
                   task_ t1 = None /\ heap s1 = delete a (heap s)).
Proof.
  split; [apply Start_twice|].
  split; [apply Stop_twice|].
  split.
  - intros Hr Hi Hp. rewrite Start_valid by assumption. cbn.
    rewrite length_app. cbn. split; [reflexivity|]. split; [lia|reflexivity].
  - intros a Hrun. eexists _, _.
    split; [apply (Stop_running _ _ _ Hrun)|]. cbn. auto.
Qed.

(** C8: when the weak reference of the callback does not resolve, the
    invocation of either lambda returns and leaves the whole system as it
    was: no user callback, no change of a task, no submission, no error. *)
Theorem dead_weak_reference_is_noop c start ending s :
  heap s !! cb_weak c = None -> invoke c start ending s = Some s.
Proof.
  intros H. unfold invoke. destruct (cb_oneshot c).
  - apply oneshot_callback_dead. exact H.
  - apply periodic_callback_dead. exact H.
Qed.

End HandleClaims.

Section OneShot.
Context {W : TimingWheelConstants}.

Lemma fire_all_empty rs : forall s, wheel s = [] -> fire_all rs s = Some s.
Proof.
  induction rs as [|[st en] rs IH]; intros s Hq; cbn; [reflexivity|].
  unfold fire. rewrite Hq. cbn. apply IH. exact Hq.
Qed.

(** C7: an invocation of the one-shot callback on a live task only adds the
    call of the user's callback: the store (so [last_execute_time_ns],
    [accumulated_error_ns] and [next_fire_duration_ms]) and the wheel (no
    resubmission) are as before.  After [Start] the wheel holds the one
    submission; however long the wheel keeps dispatching, the user's
    callback runs once. *)
Theorem oneshot_callback_never_resubmits t s :
  reality_mode s = true -> idle t -> oneshot (timer_opt_ t) = true ->
  0 < period (timer_opt_ t) < TIMER_MAX_INTERVAL_MS -> wheel s = [] ->
  let w := next_addr s in
  let cb := opt_callback (timer_opt_ t) in
  (forall s1 k n,
      heap s1 !! w = Some {| obj := k; use_count := S n |} -> mutex k = false ->
      oneshot_callback cb w s1 = Some (emit (EvUser cb) s1)) /\
  length (wheel (Start t s).2) = 1%nat /\
  (forall r rs, exists s',
      fire_all (r :: rs) (Start t s).2 = Some s' /\
      wheel s' = [] /\ heap s' = heap (Start t s).2 /\
      user_calls cb s' = S (user_calls cb s)).
Proof.
  intros Hr Hi Hos Hp Hq w cb.
  split; [intros s1 k n Hk Hm; apply (oneshot_callback_alive _ _ _ _ _ Hk Hm)|].
  rewrite Start_valid by assumption. rewrite Hq, Hos. cbn.
  split; [reflexivity|].
  intros [st en] rs. cbn. unfold fire. cbn.
  erewrite oneshot_callback_alive; [|cbn; apply lookup_insert_eq|reflexivity].
  cbn. rewrite fire_all_empty by reflexivity.
  eexists. split; [reflexivity|]. cbn.
  split; [reflexivity|]. split; [reflexivity|].
  fold cb. unfold user_calls. cbn.
  rewrite !List.filter_app, !length_app. cbn. rewrite Nat.eqb_refl. cbn. lia.
Qed.

End OneShot.

(** The one-shot sample handle: three dispatches of the wheel, one call. *)
Lemma oneshot_callback_never_resubmits_witness :
  exists s',
    fire_all (W := apollo_wheel)
      [(50, Returned 60); (150, Returned 160); (250, Returned 260)]
      (sample_started 50 true).2 = Some s' /\
    wheel s' = [] /\ user_calls 7 s' = 1%nat.
Proof.
  destruct (oneshot_callback_never_resubmits (W := apollo_wheel)
              (sample_timer 50 true).1 (sample_timer 50 true).2)
    as (_ & _ & Hrun).
  - reflexivity.
  - split; reflexivity.
  - reflexivity.
  - cbn. lia.
  - reflexivity.
  - destruct (Hrun (50, Returned 60) [(150, Returned 160); (250, Returned 260)])
      as (s' & E & Hq & _ & Hu).
    exists s'. split; [exact E|]. split; [exact Hq|exact Hu].
Defined.

(** With a period of 0 the flag is not rolled back, and a second [Start]
    with a period of 100 ms creates no task and submits nothing. *)
Lemma Start_invalid_period_not_rolled_back :
  started_ (sample_started 0 false).1 <> false /\
  Start (W := apollo_wheel)
    (SetTimerOption {| period := 100; opt_callback := 7; oneshot := false |}
       (sample_started 0 false).1)
    (sample_started 0 false).2
  = (SetTimerOption {| period := 100; opt_callback := 7; oneshot := false |}
       (sample_started 0 false).1,
     (sample_started 0 false).2) /\
  task_ (sample_started 0 false).1 = None /\
  wheel (sample_started 0 false).2 = [].
Proof. vm_compute. repeat split; discriminate. Qed.

Lemma Start_invalid_period_stays_started_witness :
  exists t2,
    Stop (sample_started 0 false).1 (sample_started 0 false).2
    = Some (t2, (sample_started 0 false).2) /\
    length (wheel (Start (W := apollo_wheel)
                     (SetTimerOption {| period := 100; opt_callback := 7;
                                        oneshot := false |} t2)
                     (sample_started 0 false).2).2) = 1%nat.
Proof.
  destruct (Start_invalid_period_stays_started (W := apollo_wheel)
              (sample_timer 0 false).1 (sample_timer 0 false).2
              {| period := 100; opt_callback := 7; oneshot := false |})
    as (e & t1 & s1 & E & _ & _ & _ & _ & _ & t2 & Hstop & _ & _ & Hlen).
  - reflexivity.
  - split; reflexivity.
  - left. reflexivity.
  - cbn. lia.
  - change (Start (sample_timer 0 false).1 (sample_timer 0 false).2)
      with (sample_started 0 false) in E.
    assert (E1 : t1 = (sample_started 0 false).1) by (rewrite E; reflexivity).
    assert (E2 : s1 = (sample_started 0 false).2) by (rewrite E; reflexivity).
    subst t1 s1. exists t2. split; [exact Hstop|exact Hlen].
Defined.

(** The sample handle is started, stopped and started again: it holds a
    new task, and the wheel was handed a second submission. *)
Lemma Stop_is_not_terminal :
  ('(t1, s1) ← Stop (sample_started 100 false).1
                 (sample_started 100 false).2;
   Some (started_ (Start (W := apollo_wheel) t1 s1).1,
         task_ (Start (W := apollo_wheel) t1 s1).1,
         length (wheel (Start (W := apollo_wheel) t1 s1).2)))
  = Some (true, Some 1%nat, 2%nat).
Proof. vm_compute. reflexivity. Qed.

Lemma Stop_then_Start_runs_again_witness :
  exists t1 s1,
    Stop (sample_started 100 false).1 (sample_started 100 false).2
    = Some (t1, s1) /\
    running (Start (W := apollo_wheel) t1 s1).1 (Start (W := apollo_wheel) t1 s1).2 1 /\
    length (wheel (Start (W := apollo_wheel) t1 s1).2) = 2%nat.
Proof.
  destruct (Stop_then_Start_runs_again (W := apollo_wheel)
              (sample_started 100 false).1 (sample_started 100 false).2)
    as (Hret & Hidle).
  - reflexivity.
  - reflexivity.
  - vm_compute. split; reflexivity.
  - destruct Hret as (t1 & s1 & E).
    { exists (sample_task 100 false), 0%nat.
      split; [exact sample_started_task|reflexivity]. }
    destruct (Hidle t1 s1 E) as (_ & Hrun & _ & Hq).
    exists t1, s1. split; [exact E|]. split; [exact Hrun|].
    rewrite Hq. reflexivity.
Defined.

Lemma Start_Stop_idempotent_witness :
  length (wheel (Start (W := apollo_wheel) (sample_started 100 false).1
                   (sample_started 100 false).2).2) = 1%nat /\
  exists t1 s1,
    Stop (sample_started 100 false).1 (sample_started 100 false).2
    = Some (t1, s1) /\ Stop t1 s1 = Some (t1, s1).
Proof.
  destruct (Start_Stop_idempotent (W := apollo_wheel)
              (sample_timer 100 false).1 (sample_timer 100 false).2)
    as (Htwice & _ & Hcount & _).
  destruct (Start_Stop_idempotent (W := apollo_wheel)
              (sample_started 100 false).1 (sample_started 100 false).2)
    as (_ & Hstop & _ & Hrel).
  split.
  - unfold sample_started at 1 2. rewrite Htwice.
    destruct Hcount as (_ & Hlen & _);
      [reflexivity|split; reflexivity|cbn; lia|exact Hlen].
  - destruct (Hrel 0%nat) as (t1 & s1 & E & _).
    + split; [reflexivity|]. split; [reflexivity|].
      exists (sample_task 100 false). split; [exact sample_started_task|reflexivity].
    + exists t1, s1. split; [exact E|]. apply Hstop. exact E.
Defined.

(** After [Stop] the task of the sample handle is gone; the submission that
    is still in the wheel fires and changes nothing. *)
Lemma dead_weak_reference_is_noop_witness :
  exists t1 s1,
    Stop (sample_started 100 false).1 (sample_started 100 false).2 = Some (t1, s1) /\
    invoke (W := apollo_wheel) (sample_closure false) 100000000 (Returned 130000000) s1
    = Some s1.
Proof.
  destruct (Stop (sample_started 100 false).1 (sample_started 100 false).2)
    as [[t1 s1]|] eqn:E; [|vm_compute in E; discriminate].
  exists t1, s1. split; [reflexivity|].
  apply (dead_weak_reference_is_noop (W := apollo_wheel)).
  vm_compute in E. injection E as _ <-. vm_compute. reflexivity.
Defined.

(** ** [Stop] against a callback on another thread *)

Section StopVersusCallback.
Context {W : TimingWheelConstants}.
Variable c : Closure.
Variable start : Z.
Variable ending : Ending.
Variable a : nat.
Hypothesis weak_is_task : cb_weak c = a.

Lemma running_at_consistent x : running_at a x -> consistent a x.
Proof.
  intros ((Hs & Ht & k & Hk & Hm) & Hp & Hq).
  destruct x as [t s p q]. cbn in *. subst p q.
  constructor; cbn; auto.
  exists k. auto.
Qed.

Ltac use_consistent H :=
  destruct H as [Hpc Htask Hstarted Hexcl Hheap];
  unfold owners in Hheap; cbn in Hpc, Htask, Hstarted, Hexcl, Hheap.

Lemma drift_compensate_mutex st en k : mutex (drift_compensate st en k) = mutex k.
Proof. apply drift_compensate_frame. Qed.

Ltac close_consistent :=
  constructor; unfold owners; cbn;
  try rewrite lookup_insert_eq; try rewrite lookup_delete_eq;
  try solve [ reflexivity | assumption | eauto
            | eexists; split;
              [reflexivity | cbn; rewrite ?drift_compensate_mutex; auto] ].

Lemma step_stop_consistent x y :
  consistent a x -> step_stop x = Some y -> consistent a y.
Proof.
  intros H E. destruct x as [t s p q]. use_consistent H.
  unfold step_stop in E. cbn in E.
  destruct p; cbn in *; try subst a0;
    try (rewrite Htask, Hstarted in E; cbn in E);
    try discriminate;
    destruct q; cbn in *; try discriminate;
    destruct Hheap as (k & Hk & Hm);
    revert E; heap_simpl;
    try (rewrite (mutex_acquire_held _ _ _ Hk Hm); cbn);
    try (unfold mutex_release; heap_simpl);
    intros E; try discriminate; injection E as <-;
    close_consistent.
Qed.

Lemma step_cb_consistent x y :
  consistent a x -> step_cb c start ending x = Some y -> consistent a y.
Proof.
  intros H E. destruct x as [t s p q]. use_consistent H.
  unfold step_cb in E. cbn in E. rewrite weak_is_task in E.
  destruct (cb_oneshot c); destruct ending as [en|];
  destruct q; cbn in *; try discriminate;
    destruct p; cbn in *; try subst a0; try discriminate;
    try destruct Hheap as (k & Hk & Hm);
    revert E;
    try rewrite (weak_lock_alive _ _ _ Hk);
    try rewrite (weak_lock_dead _ _ Hheap);
    try (rewrite (mutex_acquire_held _ _ _ Hk Hm); cbn);
    try (unfold mutex_release); heap_simpl; try (unfold AddTask; heap_simpl);
    intros E; try discriminate; injection E as <-;
    close_consistent.
Qed.

Lemma step_consistent i x y :
  consistent a x -> step c start ending i x = Some y -> consistent a y.
Proof.
  destruct i; cbn; [apply step_stop_consistent|apply step_cb_consistent].
Qed.

Lemma run_consistent sched : forall x y,
  consistent a x -> run c start ending sched x = Some y -> consistent a y.
Proof.
  induction sched as [|i sched IH]; intros x y Hx E; cbn in E.
  - injection E as <-. exact Hx.
  - destruct (step c start ending i x) as [x1|] eqn:E1; cbn in E; [|discriminate].
    apply (IH x1 y); [apply (step_consistent i x x1 Hx E1)|exact E].
Qed.

(** Every step executes one statement of its thread. *)
Lemma step_decreases i x y :
  step c start ending i x = Some y -> (steps_left y < steps_left x)%nat.
Proof.
  destruct x as [t s p q]. unfold steps_left.
  destruct i; cbn; [unfold step_stop|unfold step_cb]; cbn.
  - destruct p; cbn; try discriminate;
      try (destruct (task_ t); destruct (started_ t));
      try (destruct (mutex_acquire _ _); cbn; try discriminate);
      intros [= <-]; cbn; lia.
  - destruct q; cbn; try discriminate;
      try (destruct (weak_lock _ _));
      try (destruct (mutex_acquire _ _); cbn; try discriminate);
      try (destruct (cb_oneshot c)); try (destruct ending);
      intros [= <-]; cbn; lia.
Qed.

(** Some thread can move as long as one of them has not returned. *)
Lemma progress x :
  consistent a x -> (0 < steps_left x)%nat ->
  exists i y, step c start ending i x = Some y.
Proof.
  intros H Hleft. destruct x as [t s p q]. use_consistent H.
  unfold steps_left in Hleft. cbn in Hleft.
  destruct p; cbn in *; try subst a0;
    destruct q; cbn in *; try lia; try discriminate;
    try destruct Hheap as (k & Hk & Hm);
    first
      [ exists TStop; cbn; unfold step_stop; cbn;
        rewrite ?Htask, ?Hstarted; heap_simpl; eexists; reflexivity
      | exists TCallback; cbn; unfold step_cb; cbn; rewrite ?weak_is_task;
        try rewrite (weak_lock_alive _ _ _ Hk);
        try rewrite (weak_lock_dead _ _ Hheap);
        heap_simpl; eexists; reflexivity ].
Qed.

(** No deadlock: from every consistent state both threads can be run until
    they have returned. *)
Lemma can_finish n : forall x,
  (steps_left x <= n)%nat -> consistent a x ->
  exists sched y,
    run c start ending sched x = Some y /\ c_stop y = SpReturned /\ c_cb y = CpReturned.
Proof.
  induction n as [|n IH]; intros x Hn Hx.
  - exists [], x. split; [reflexivity|].
    destruct x as [t s p q]. unfold steps_left in Hn. cbn in *.
    destruct p; cbn in Hn; try lia. destruct q; cbn in Hn; try lia. auto.
  - destruct (Nat.eq_dec (steps_left x) 0%nat) as [E0|Hpos].
    + apply IH; [lia|exact Hx].
    + destruct (progress x Hx) as (i & x1 & E1); [lia|].
      pose proof (step_decreases i x x1 E1) as Hdec.
      destruct (IH x1) as (sched & y & E & Hy); [lia|apply (step_consistent i x x1 Hx E1)|].
      exists (i :: sched), y. cbn. rewrite E1. cbn. auto.
Qed.

(** While the callback holds the mutex, [Stop] waits at its [lock_guard]. *)
Lemma stop_waits x b :
  consistent a x -> cb_in_flight (c_cb x) = true -> c_stop x = SpLock b ->
  step_stop x = None.
Proof.
  intros H Hf Hp. destruct x as [t s p q]. use_consistent H. cbn in *. subst p.
  cbn in *. subst b. unfold step_stop. cbn.
  destruct q; cbn in *; try discriminate;
    destruct Hheap as (k & Hk & Hm);
    rewrite (mutex_acquire_held _ _ _ Hk Hm); reflexivity.
Qed.

Lemma holder_first_step i x y :
  consistent a x -> holder_first x = true ->
  step c start ending i x = Some y -> holder_first y = true.
Proof.
  intros H HQ E. destruct i; cbn in E.
  - destruct (cb_in_flight (c_cb x)) eqn:Hf.
    + destruct x as [t s p q]. unfold holder_first in *. cbn in *.
      rewrite Hf in HQ. 
      assert (Hfin : cb_finished q = false) by (destruct q; cbn in *; congruence).
      rewrite Hfin, orb_false_r in HQ. cbn in HQ.
      destruct p; cbn in HQ; try discriminate.
      * unfold step_stop in E. cbn in E.
        use_consistent H. rewrite Htask, Hstarted in E.
        injection E as <-. cbn. rewrite Hf. reflexivity.
      * unfold step_stop in E. cbn in E. injection E as <-. cbn. rewrite Hf. reflexivity.
      * rewrite (stop_waits _ a0 H Hf eq_refl) in E. discriminate.
    + unfold holder_first in *. rewrite Hf in HQ. cbn in HQ.
      assert (Hq : c_cb y = c_cb x).
      { destruct x as [t s p q]. unfold step_stop in E. cbn in E.
        destruct p; cbn in E;
          try (destruct (task_ t); destruct (started_ t));
          try (destruct (mutex_acquire _ _); cbn in E);
          try discriminate; injection E as <-; reflexivity. }
      rewrite Hq, HQ. apply orb_true_r.
  - destruct x as [t s p q]. unfold holder_first in *. cbn in *.
    unfold step_cb in E. cbn in E.
    destruct q; cbn in HQ; try discriminate; cbn in E;
      try (destruct (cb_oneshot c)); try (destruct ending); try discriminate;
      injection E as <-; cbn; try reflexivity; exact HQ.
Qed.

Lemma holder_first_run sched : forall x y,
  consistent a x -> holder_first x = true ->
  run c start ending sched x = Some y -> holder_first y = true.
Proof.
  induction sched as [|i sched IH]; intros x y Hx HQ E; cbn in E.
  - injection E as <-. exact HQ.
  - destruct (step c start ending i x) as [x1|] eqn:E1; cbn in E; [|discriminate].
    apply (IH x1 y); [apply (step_consistent i x x1 Hx E1)| |exact E].
    apply (holder_first_step i x x1 Hx HQ E1).
Qed.

(** Once [Stop] has returned the task is gone unless the callback holds it. *)
Lemma callback_after_return x :
  consistent a x -> c_stop x = SpReturned -> c_cb x = CpEntry ->
  step_cb c start ending x
  = Some {| c_timer := c_timer x; c_sys := c_sys x; c_stop := SpReturned;
            c_cb := CpReturned |}.
Proof.
  intros H Hp Hq. destruct x as [t s p q]. use_consistent H. cbn in *. subst p q.
  cbn in *. unfold step_cb. cbn. rewrite weak_is_task, (weak_lock_dead _ _ Hheap).
  reflexivity.
Qed.

End StopVersusCallback.

Section StopClaim.
Context {W : TimingWheelConstants}.
Variable c : Closure.
Variable start : Z.
Variable ending : Ending.

(** The sequential [Stop] is the stop thread running alone. *)
Lemma Stop_as_steps t s t' s' q :
  Stop t s = Some (t', s') ->
  exists n,
    run c start ending (repeat TStop n)
      {| c_timer := t; c_sys := s; c_stop := SpEntry; c_cb := q |}
    = Some {| c_timer := t'; c_sys := s'; c_stop := SpReturned; c_cb := q |}.
Proof.
  unfold Stop. cbn. intros E.
  destruct (started_ t) eqn:Hs; [destruct (task_ t) as [b|] eqn:Ht|].
  - destruct (mutex_acquire b _) as [s3|] eqn:Hl; cbn in E; [|discriminate].
    injection E as <- <-. exists 6%nat. unfold run, repeat, step, step_stop. cbn.
    rewrite Ht, Hs. cbn. rewrite Hl. reflexivity.
  - injection E as <- <-. exists 1%nat. cbn. unfold step_stop. cbn.
    rewrite Ht, Hs. reflexivity.
  - injection E as <- <-. exists 1%nat. cbn. unfold step_stop. cbn.
    rewrite Hs. reflexivity.
Qed.

(** An invocation of the callback is the callback thread running alone. *)
Lemma invoke_as_steps t s s' p :
  invoke c start ending s = Some s' ->
  exists n,
    run c start ending (repeat TCallback n)
      {| c_timer := t; c_sys := s; c_stop := p; c_cb := CpEntry |}
    = Some {| c_timer := t; c_sys := s'; c_stop := p; c_cb := CpReturned |}.
Proof.
  unfold invoke, oneshot_callback, periodic_callback. intros E.
  destruct (weak_lock (cb_weak c) s) as [s1|] eqn:Hw.
  - destruct (mutex_acquire (cb_weak c) s1) as [s2|] eqn:Hl;
      [|destruct (cb_oneshot c); discriminate].
    destruct (cb_oneshot c) eqn:Hos; [|destruct ending as [en|]];
      cbn in E; injection E as <-.
    + exists 5%nat. unfold run, repeat, step, step_cb. cbn.
      rewrite Hw. cbn. rewrite Hl. cbn. rewrite Hos. reflexivity.
    + exists 6%nat. unfold run, repeat, step, step_cb. cbn.
      rewrite Hw. cbn. rewrite Hl. cbn. rewrite Hos. reflexivity.
    + exists 5%nat. unfold run, repeat, step, step_cb. cbn.
      rewrite Hw. cbn. rewrite Hl. cbn. rewrite Hos. reflexivity.
  - assert (E' : s' = s) by (destruct (cb_oneshot c); congruence). subst s'.
    exists 1%nat. cbn. unfold step_cb. cbn. rewrite Hw. reflexivity.
Qed.

(** X17: what the mutex in [Stop] does ensure, under every interleaving of
    one [Stop] with one invocation of the callback.  [Stop] and the
    invocation are never inside their guarded blocks together; while the
    invocation holds the mutex [Stop] waits at its lock, and when the
    invocation held the mutex before [Stop] took it, [Stop] does not return
    before the invocation has left its guarded block; an invocation that
    resolves its weak reference only after [Stop] has returned finds it
    dead and does nothing.  Neither thread can block the other for ever. *)
Theorem Stop_waits_for_lock_holder a x0 sched x :
  cb_weak c = a -> running_at a x0 ->
  run c start ending sched x0 = Some x ->
  stop_in_critical (c_stop x) && cb_in_flight (c_cb x) = false /\
  (cb_in_flight (c_cb x) = true ->
     (forall b, c_stop x = SpLock b -> step_stop x = None) /\
     (stop_before_lock (c_stop x) = true ->
      forall sched' y, run c start ending sched' x = Some y ->
                       c_stop y = SpReturned -> cb_finished (c_cb y) = true)) /\
  (c_stop x = SpReturned -> c_cb x = CpEntry ->
     step_cb c start ending x
     = Some {| c_timer := c_timer x; c_sys := c_sys x; c_stop := SpReturned;
               c_cb := CpReturned |}) /\
  (exists sched' y,
     run c start ending sched' x = Some y /\
     c_stop y = SpReturned /\ c_cb y = CpReturned).
Proof.
  intros Hw H0 E.
  assert (Hx : consistent a x).
  { apply (run_consistent c start ending a Hw sched x0 x); [|exact E].
    apply running_at_consistent. exact H0. }
  split; [apply (con_exclusive a x Hx)|].
  split.
  { intros Hf. split.
    - intros b Hp. apply (stop_waits a x b Hx Hf Hp).
    - intros Hb sched' y E' Hret.
      assert (HQ : holder_first x = true)
        by (unfold holder_first; rewrite Hf, Hb; reflexivity).
      pose proof (holder_first_run c start ending a Hw sched' x y Hx HQ E') as HQ'.
      unfold holder_first in HQ'. rewrite Hret in HQ'. cbn in HQ'.
      rewrite andb_false_r in HQ'. exact HQ'. }
  split; [apply (callback_after_return c start ending a Hw x Hx)|].
  apply (can_finish c start ending a Hw (steps_left x) x); [lia|exact Hx].
Qed.

End StopClaim.

(** C10 fails in the code, on the started sample handle.  The invocation
    resolves its weak reference (line 80), [Stop] runs up to the release of
    the mutex, the invocation takes the mutex (line 84), and [Stop]
    returns: the user's callback is running when [Stop] returns.  In the
    second schedule [Stop] has returned before the invocation takes the
    mutex: the invocation begins its guarded block after [Stop] has
    returned, calls the user's callback and submits the task again. *)
Lemma Stop_returns_while_callback_runs :
  running_at 0 sample_race /\
  (x ← run (W := apollo_wheel) (sample_closure false) 100000000 (Returned 130000000)
         [TCallback; TStop; TStop; TStop; TStop; TStop; TCallback; TStop] sample_race;
   Some (c_stop x, c_cb x, user_calls 7 (c_sys x)))
  = Some (SpReturned, CpUser, 0%nat) /\
  (x ← run (W := apollo_wheel) (sample_closure false) 100000000 (Returned 130000000)
         [TCallback; TStop; TStop; TStop; TStop; TStop; TStop;
          TCallback; TCallback; TCallback] sample_race;
   Some (c_stop x, c_cb x, user_calls 7 (c_sys x), length (wheel (c_sys x))))
  = Some (SpReturned, CpUnlock, 1%nat, 2%nat).
Proof.
  split.
  - split; [|split; reflexivity].
    split; [reflexivity|]. split; [reflexivity|].
    exists (sample_task 100 false). split; [exact sample_started_task|reflexivity].
  - split; vm_compute; reflexivity.
Qed.

(** The invocation holds the mutex when [Stop] is called: [Stop] cannot
    take the lock, and in the run to the end the callback has left its
    guarded block when [Stop] returns. *)
Lemma Stop_waits_for_lock_holder_witness :
  exists x,
    run (W := apollo_wheel) (sample_closure false) 100000000 (Returned 130000000)
      [TCallback; TCallback; TStop; TStop] sample_race = Some x /\
    c_cb x = CpUser /\ step_stop x = None.
Proof.
  destruct (run (W := apollo_wheel) (sample_closure false) 100000000 (Returned 130000000)
              [TCallback; TCallback; TStop; TStop] sample_race) as [x|] eqn:E;
    [|vm_compute in E; discriminate].
  destruct (Stop_waits_for_lock_holder (W := apollo_wheel) (sample_closure false)
              100000000 (Returned 130000000) 0%nat sample_race
              [TCallback; TCallback; TStop; TStop] x)
    as (_ & Hheld & _).
  - reflexivity.
  - split; [|split; reflexivity].
    split; [reflexivity|]. split; [reflexivity|].
    exists (sample_task 100 false). split; [exact sample_started_task|reflexivity].
  - exact E.
  - exists x. split; [reflexivity|].
    assert (Hpc : c_cb x = CpUser /\ c_stop x = SpLock 0).
    { vm_compute in E. injection E as <-. split; reflexivity. }
    destruct Hpc as [Hq Hp]. split; [exact Hq|].
    destruct Hheld as [Hwait _]; [rewrite Hq; reflexivity|].
    apply (Hwait 0%nat Hp).
Defined.

(** ** The rounding on some values *)

Example ns_to_ms_half_up : ns_to_ms 1500000 = 2 /\ ns_to_ms 1499999 = 1.
Proof. split; vm_compute; reflexivity. Qed.

Example ns_to_ms_half_away_from_zero : ns_to_ms (-1500000) = -2 /\ ns_to_ms (-1499999) = -1.
Proof. split; vm_compute; reflexivity. Qed.

(** In double precision the quotient of a very long time (more than six
    months in nanoseconds) is already rounded before [llround] sees it. *)
Example ns_to_ms_double_precision :
  ns_to_ms (2 ^ 34 * 1000000 + 499999) = 2 ^ 34 + 1 /\
  exact_ns_to_ms (2 ^ 34 * 1000000 + 499999) = 2 ^ 34.
Proof. split; vm_compute; reflexivity. Qed.

(** * Further properties of the code *)

(** ** Construction and timer ids *)

Lemma after_ids_counter n s :
  0 <= global_timer_id s < 2 ^ 64 ->
  global_timer_id (after_ids n s) = wrap64 (global_timer_id s + Z.of_nat n).
Proof.
  intros Hg. induction n as [|n IH].
  - cbn. rewrite Z.add_0_r. symmetry. apply wrap64_small. exact Hg.
  - cbn [after_ids GenerateTimerId snd global_timer_id]. rewrite IH.
    rewrite (wrap64_decomp (global_timer_id s + Z.of_nat n)).
    set (q := - ((global_timer_id s + Z.of_nat n) / 2 ^ 64)).
    replace (global_timer_id s + Z.of_nat n + q * 2 ^ 64 + 1)
      with (global_timer_id s + Z.of_nat (S n) + q * 2 ^ 64) by lia.
    unfold wrap64. apply Z_mod_plus_full.
Qed.

(** X1: two timers constructed in one process, by either constructor, get
    different ids, as long as fewer than 2^64 timers were constructed in
    between; the id is the value of the global counter, which goes up by
    one (modulo 2^64) per construction. *)
Theorem timer_ids_distinct s n m p cb os opt :
  0 <= global_timer_id s < 2 ^ 64 ->
  (n < m)%nat -> Z.of_nat m - Z.of_nat n < 2 ^ 64 ->
  timer_id_ (Timer_new p cb os (after_ids n s)).1
  = wrap64 (global_timer_id s + Z.of_nat n) /\
  timer_id_ (Timer_of_option opt (after_ids n s)).1
  = wrap64 (global_timer_id s + Z.of_nat n) /\
  wrap64 (global_timer_id s + Z.of_nat n)
  <> wrap64 (global_timer_id s + Z.of_nat m).
Proof.
  intros Hg Hnm Hlt. cbn.
  rewrite !after_ids_counter by exact Hg.
  split; [reflexivity|]. split; [reflexivity|].
  rewrite (wrap64_decomp (global_timer_id s + Z.of_nat n)),
    (wrap64_decomp (global_timer_id s + Z.of_nat m)).
  set (q1 := - ((global_timer_id s + Z.of_nat n) / 2 ^ 64)).
  set (q2 := - ((global_timer_id s + Z.of_nat m) / 2 ^ 64)).
  intros E.
  assert (Hd : Z.of_nat m - Z.of_nat n = (q1 - q2) * 2 ^ 64) by lia.
  assert (Hpos : 0 < Z.of_nat m - Z.of_nat n) by lia.
  assert (Hq : 0 < q1 - q2 < 1) by lia.
  lia.
Qed.

Lemma timer_ids_distinct_witness :
  timer_id_ (Timer_new 100 7 false (after_ids 0 boot)).1
  <> timer_id_ (Timer_of_option {| period := 50; opt_callback := 8; oneshot := true |}
                  (after_ids 1 boot)).1.
Proof.
  destruct (timer_ids_distinct boot 0 1 100 7 false
              {| period := 50; opt_callback := 8; oneshot := true |})
    as (E0 & _ & Hne).
  - cbn. lia.
  - lia.
  - cbn. lia.
  - destruct (timer_ids_distinct boot 1 2 100 7 false
                {| period := 50; opt_callback := 8; oneshot := true |})
      as (_ & E1 & _).
    + cbn. lia.
    + lia.
    + cbn. lia.
    + rewrite E0, E1. exact Hne.
Defined.

Section Construction.
Context {W : TimingWheelConstants}.

(** X2: a constructed handle is idle and construction touches neither the
    store, the wheel nor the log; [Start] on it (reality mode, valid
    period) gives a running handle whose task carries the id of the handle,
    and the log line of [Start] shows that id. *)
Theorem Timer_new_then_Start p cb os s :
  reality_mode s = true -> 0 < p < TIMER_MAX_INTERVAL_MS ->
  let t := (Timer_new p cb os s).1 in
  let s1 := (Timer_new p cb os s).2 in
  idle t /\ timer_id_ t = global_timer_id s /\
  heap s1 = heap s /\ wheel s1 = wheel s /\ trace s1 = trace s /\
  next_addr s1 = next_addr s /\
  running (Start t s1).1 (Start t s1).2 (next_addr s) /\
  task_timer_id <$> task_at (next_addr s) (Start t s1).2 = Some (timer_id_ t) /\
  trace (Start t s1).2 = trace s ++ [EvInfoStart (timer_id_ t)].
Proof.
  intros Hr Hp t s1.
  assert (Hi : idle t) by (split; reflexivity).
  split; [exact Hi|]. repeat (split; [reflexivity|]).
  split; [apply (Start_gives_running t s1 Hr Hi Hp)|].
  rewrite (Start_valid t s1 Hr Hi Hp). unfold task_at. cbn.
  rewrite lookup_insert_eq. split; reflexivity.
Qed.

End Construction.

Lemma Timer_new_then_Start_witness :
  task_timer_id <$> task_at 0 (sample_started 100 false).2 = Some 0.
Proof.
  destruct (Timer_new_then_Start (W := apollo_wheel) 100 7 false boot)
    as (_ & _ & _ & _ & _ & _ & _ & Hid & _).
  - reflexivity.
  - cbn. lia.
  - exact Hid.
Defined.

(** ** Options, round trip and destruction *)

Section HandleExtras.
Context {W : TimingWheelConstants}.

(** Either lambda on a task that is gone. *)
Lemma invoke_dead c start ending s :
  heap s !! cb_weak c = None -> invoke c start ending s = Some s.
Proof.
  intros H. unfold invoke.
  destruct (cb_oneshot c);
    [apply oneshot_callback_dead|apply periodic_callback_dead]; exact H.
Qed.

(** X3: [SetTimerOption] on a running handle changes only the stored
    options: the task keeps the period and the callback it was started
    with and [Start] stays without effect; the new options are used by the
    task that [Start] creates after a [Stop]. *)
Theorem SetTimerOption_while_running t s a opt :
  reality_mode s = true -> running t s a ->
  0 < period opt < TIMER_MAX_INTERVAL_MS ->
  running (SetTimerOption opt t) s a /\
  Start (SetTimerOption opt t) s = (SetTimerOption opt t, s) /\
  exists t1 s1,
    Stop (SetTimerOption opt t) s = Some (t1, s1) /\
    exists k,
      heap (Start t1 s1).2 !! next_addr s = Some {| obj := k; use_count := 1 |} /\
      interval_ms k = period opt /\
      next_fire_duration_ms k = period opt /\
      callback k = Some {| cb_oneshot := oneshot opt; cb_user := opt_callback opt;
                           cb_weak := next_addr s |}.
Proof.
  intros Hr Hrun Hp.
  assert (Hrun' : running (SetTimerOption opt t) s a).
  { destruct Hrun as (Hs & Ht & Hk). split; [exact Hs|]. split; [exact Ht|exact Hk]. }
  split; [exact Hrun'|].
  split; [apply Start_started; apply Hrun'|].
  eexists _, _. split; [apply (Stop_running _ _ _ Hrun')|].
  rewrite Start_valid; [|exact Hr|split; reflexivity|exact Hp].
  cbn. eexists. split; [apply lookup_insert_eq|]. cbn. auto.
Qed.

(** X4: [Start] followed by [Stop] on an idle handle gives back the handle
    and the content of the store; what remains is the used address, the
    two log lines and one stale submission in the wheel, whose firing does
    nothing. *)
Theorem Start_then_Stop_round_trip t s :
  reality_mode s = true -> idle t ->
  0 < period (timer_opt_ t) < TIMER_MAX_INTERVAL_MS ->
  heap s !! next_addr s = None ->
  exists s2,
    Stop (Start t s).1 (Start t s).2 = Some (t, s2) /\
    heap s2 = heap s /\ next_addr s2 = S (next_addr s) /\
    trace s2 = trace s ++ [EvInfoStart (timer_id_ t); EvInfoStop (timer_id_ t)] /\
    exists sub,
      wheel s2 = wheel s ++ [sub] /\ sub_task sub = next_addr s /\
      forall c start ending,
        sub_callback sub = Some c -> invoke c start ending s2 = Some s2.
Proof.
  intros Hr Hi Hp Hfree.
  pose proof (Start_gives_running t s Hr Hi Hp) as Hrun.
  rewrite (Stop_running _ _ _ Hrun).
  rewrite (Start_valid t s Hr Hi Hp). cbn.
  destruct Hi as [Hs Ht].
  eexists. split.
  { f_equal. f_equal. destruct t; cbn in *; subst; reflexivity. }
  cbn. split; [apply delete_insert_id; exact Hfree|].
  split; [reflexivity|].
  split; [rewrite <- app_assoc; reflexivity|].
  eexists. split; [reflexivity|]. split; [reflexivity|].
  intros c st en [= <-].
  apply invoke_dead. cbn. apply lookup_delete_eq.
Qed.

(** X5: destroying a running handle is [Stop]: the task is released, and a
    callback of it that is still queued does nothing; destroying a handle
    that holds no task (never started, stopped, or started with an invalid
    period) changes nothing. *)
Theorem Timer_destroy_releases_task t s :
  (forall a, running t s a ->
     exists t1 s1,
       Timer_destroy t s = Some (t1, s1) /\ idle t1 /\
       heap s1 = delete a (heap s) /\ wheel s1 = wheel s /\
       forall c start ending, cb_weak c = a -> invoke c start ending s1 = Some s1) /\
  (task_ t = None -> Timer_destroy t s = Some (t, s)).
Proof.
  split.
  - intros a Hrun. unfold Timer_destroy.
    destruct Hrun as (Hs & Ht & Hk). rewrite Ht.
    rewrite (Stop_running t s a (conj Hs (conj Ht Hk))).
    eexists _, _. split; [reflexivity|]. cbn.
    split; [split; reflexivity|]. split; [reflexivity|]. split; [reflexivity|].
    intros c st en Hw. apply invoke_dead.
    rewrite Hw. cbn. apply lookup_delete_eq.
  - intros Ht. unfold Timer_destroy. rewrite Ht. reflexivity.
Qed.

(** X6: an invocation of either lambda on a live task waits when the mutex
    is held; with a free mutex it returns, and it leaves the use count of
    the task, the free mutex, every other task and the allocator as it
    found them (the [lock_guard] and the local [shared_ptr] are undone). *)
Theorem invoke_restores_lock_and_count c start ending s k n :
  heap s !! cb_weak c = Some {| obj := k; use_count := S n |} ->
  (mutex k = true -> invoke c start ending s = None) /\
  (mutex k = false ->
     exists s' k',
       invoke c start ending s = Some s' /\
       heap s' !! cb_weak c = Some {| obj := k'; use_count := S n |} /\
       mutex k' = false /\
       (forall b, b <> cb_weak c -> heap s' !! b = heap s !! b) /\
       next_addr s' = next_addr s /\
       trace s' = trace s ++ [EvUser (cb_user c)]).
Proof.
  intros Hk. split.
  - intros Hm. unfold invoke, oneshot_callback, periodic_callback.
    rewrite (weak_lock_alive _ _ _ Hk).
    rewrite (mutex_acquire_held (cb_weak c)
               {| obj := k; use_count := S (S n) |});
      [destruct (cb_oneshot c); reflexivity| |exact Hm].
    cbn. apply lookup_insert_eq.
  - intros Hm. unfold invoke. destruct (cb_oneshot c).
    + rewrite (oneshot_callback_alive _ _ _ _ _ Hk Hm).
      exists (emit (EvUser (cb_user c)) s), k. cbn. repeat split; auto.
    + destruct ending as [end_|].
      * rewrite (periodic_callback_alive _ _ _ _ _ _ _ Hk Hm).
        eexists _, _. split; [reflexivity|]. cbn.
        split; [apply lookup_insert_eq|].
        split; [destruct (drift_compensate_frame start end_ k) as (_ & _ & -> & _);
                exact Hm|].
        split; [intros b Hb; apply lookup_insert_ne; congruence|]. auto.
      * rewrite (periodic_callback_threw _ _ _ _ _ _ Hk Hm).
        exists (emit (EvUser (cb_user c)) s), k. cbn. repeat split; auto.
Qed.

End HandleExtras.

(** ** The drift over a run of firings *)

Lemma ns_to_ms_zero : ns_to_ms 0 = 0.
Proof. vm_compute. reflexivity. Qed.

(** X18: the two calls of [llround] never leave the range of
    [long long].  For every integer of 64 bits (the running time is a
    [uint64_t], the accumulated error an [int64_t]) the binary64 quotient
    by 1e6 is a zero or a finite double, and the integer nearest to it,
    halfway cases away from zero, which [llround] returns, is below 2^47 in
    magnitude; it is not negative when the integer is not, so that the
    running time is kept by its conversion to [uint64_t]. *)
Theorem llround_stays_in_range ns :
  Z.abs ns < 2 ^ 64 ->
  exists r,
    round_half_away (quotient_1e6 ns) = Some r /\
    nearest_half_away (quotient_1e6 ns) r /\
    ns_to_ms ns = r /\
    - 2 ^ 47 <= r <= 2 ^ 47 /\
    (0 <= ns -> 0 <= r /\ wrap64 r = r).
Proof.
  intros Hns.
  destruct (round_half_away_small _ 47 _ ltac:(lia) (quotient_1e6_small ns Hns))
    as (r & E & Hr & Hs).
  exists r. split; [exact E|].
  split; [apply round_half_away_nearest; exact E|].
  split.
  { assert (Hin : in_int64 r = true) by (apply in_int64_spec; lia).
    unfold ns_to_ms, llround.
    change (SFdiv prec emax (to_double ns) double_1e6) with (quotient_1e6 ns).
    rewrite E, Hin. reflexivity. }
  split; [exact Hr|].
  intros H0.
  assert (Hpos : 0 <= r) by (apply Hs; f_equal; apply Z.ltb_ge; exact H0).
  split; [exact Hpos|apply wrap64_small; lia].
Qed.

Section DriftExtras.
Context {W : TimingWheelConstants}.

(** X7: over any run of invocations of the callback of a periodic task
    that [Start] created, whether the user's callback returns or throws:
    every invocation is left and has called the user's callback once; an
    invocation makes one submission when the user's callback returned and
    none when it threw; [interval_ms] stays the period, positive; the id,
    the callback and the free mutex of the task stay as well. *)
Theorem periodic_task_keeps_interval t s rs :
  reality_mode s = true -> idle t -> oneshot (timer_opt_ t) = false ->
  0 < period (timer_opt_ t) < TIMER_MAX_INTERVAL_MS ->
  let w := next_addr s in
  let c := {| cb_oneshot := false; cb_user := opt_callback (timer_opt_ t);
              cb_weak := w |} in
  exists s' k,
    invoke_all c rs (Start t s).2 = Some s' /\
    heap s' !! w = Some {| obj := k; use_count := 1 |} /\
    interval_ms k = period (timer_opt_ t) /\ 0 < interval_ms k /\
    task_timer_id k = timer_id_ t /\ callback k = Some c /\ mutex k = false /\
    length (wheel s') = (length (wheel s) + 1 + length (returned rs))%nat /\
    user_calls (opt_callback (timer_opt_ t)) s'
    = (user_calls (opt_callback (timer_opt_ t)) s + length rs)%nat.
Proof.
  intros Hr Hi Hos Hp w c.
  rewrite (Start_valid t s Hr Hi Hp), Hos.
  match goal with |- context [invoke_all c rs ?s1] =>
    destruct (invoke_all_firings c w rs s1
                {| task_timer_id := timer_id_ t; callback := Some c;
                   interval_ms := period (timer_opt_ t);
                   next_fire_duration_ms := period (timer_opt_ t);
                   accumulated_error_ns := 0; last_execute_time_ns := 0;
                   mutex := false |} eq_refl eq_refl)
      as (s' & E & Hk & Hq & Hu)
  end.
  { cbn. apply lookup_insert_eq. }
  { reflexivity. }
  eexists s', _. split; [exact E|]. split; [exact Hk|].
  match goal with |- context [firings (returned rs) ?k0] =>
    destruct (firings_frame (returned rs) k0) as (-> & -> & -> & ->) end.
  cbn. repeat (split; [first [reflexivity|lia]|]).
  split.
  - rewrite Hq. cbn. rewrite length_app. cbn. lia.
  - cbn [cb_user c] in Hu. unfold c in Hu. cbn [cb_user] in Hu.
    rewrite Hu. unfold user_calls. cbn.
    rewrite List.filter_app, length_app. cbn. lia.
Qed.

(** X8: the accumulated error telescopes.  After a first firing at
    [first] and [n] more, with no clock reading of 0, it is the time from
    the first to the last firing minus [n] periods, in signed 64-bit
    arithmetic: the errors of the single intervals cancel. *)
Theorem accumulated_error_telescopes k first end0 rs :
  last_execute_time_ns k = 0 -> accumulated_error_ns k = 0 ->
  first <> 0 -> Forall (fun r => r.1 <> 0) rs ->
  let k' := firings ((first, end0) :: rs) k in
  last_execute_time_ns k' = last_start first rs /\
  accumulated_error_ns k'
  = to_int64 ((last_start first rs - first)
              - Z.of_nat (length rs) * (interval_ms k * 1000000)).
Proof.
  intros Hl Ha Hf Hrs. cbn [firings].
  destruct (drift_compensate_frame first end0 k) as (Hi & Hl' & _).
  destruct (firings_error first rs (drift_compensate first end0 k) 0) as (E1 & E2).
  - rewrite Hl'. exact Hf.
  - rewrite Hl', drift_compensate_error, accumulate_error_first, Ha by exact Hl.
    cbn. rewrite Z.sub_diag. reflexivity.
  - exact Hrs.
  - rewrite Hl', Hi in *. cbn in E2. split; [exact E1|exact E2].
Qed.

(** X9: a firing without drift (a first firing, or one exactly a period
    after the last, with no error accumulated) keeps the error at 0 and
    asks for the period minus the running time of the callback in
    milliseconds, or for the resolution when less than the resolution
    would be left.  The running time in milliseconds is [llround] of the
    binary64 quotient of the nanoseconds by 10^6: the integer nearest to
    that double, halfway cases away from zero. *)
Theorem no_drift_next_fire start end_ k :
  0 <= TIMER_RESOLUTION_MS <= 2 ^ 63 -> 0 <= interval_ms k < 2 ^ 63 ->
  accumulated_error_ns k = 0 ->
  last_execute_time_ns k = 0
  \/ start - last_execute_time_ns k = interval_ms k * 1000000 ->
  let execute_time_ms := execute_time_ms_of start end_ in
  let k' := drift_compensate start end_ k in
  nearest_half_away (quotient_1e6 (wrap64 (end_ - start))) execute_time_ms /\
  accumulated_error_ns k' = 0 /\
  (execute_time_ms + TIMER_RESOLUTION_MS <= interval_ms k ->
     next_fire_duration_ms k' = interval_ms k - execute_time_ms) /\
  (interval_ms k < execute_time_ms + TIMER_RESOLUTION_MS ->
     next_fire_duration_ms k' = TIMER_RESOLUTION_MS).
Proof.
  intros HR Hi Ha Hon exec k'.
  assert (Ha' : accumulated_error_ns (accumulate_error start k) = 0).
  { destruct (Z.eq_dec (last_execute_time_ns k) 0) as [E|E].
    - rewrite accumulate_error_first by exact E. exact Ha.
    - rewrite accumulate_error_later by exact E.
      destruct Hon as [Hz|Hz]; [contradiction|].
      rewrite Ha, Hz, Z.sub_diag. reflexivity. }
  split; [apply execute_time_ms_is_nearest|].
  split; [unfold k'; rewrite drift_compensate_error; exact Ha'|].
  pose proof (execute_time_ms_range start end_) as He. fold exec in He.
  unfold k', drift_compensate. fold exec.
  rewrite next_fire_value;
    [|exact HR|rewrite accumulate_error_interval; exact Hi|lia].
  rewrite accumulate_error_interval, Ha', ns_to_ms_zero.
  split; intros Hc;
    destruct (Z.leb_spec (interval_ms k) exec);
    destruct (Z.leb_spec 0 (interval_ms k - exec - TIMER_RESOLUTION_MS)); lia.
Qed.

(** X10: when the accumulated error, in milliseconds, is not negative (the
    timer is not ahead of its schedule), the delay asked for is at least
    the resolution and at most the period (or the resolution, if the period
    is smaller). *)
Theorem late_timer_waits_at_most_period start end_ k :
  0 <= TIMER_RESOLUTION_MS <= 2 ^ 63 -> 0 <= interval_ms k < 2 ^ 63 ->
  0 <= ns_to_ms (accumulated_error_ns (accumulate_error start k)) ->
  TIMER_RESOLUTION_MS <= next_fire_duration_ms (drift_compensate start end_ k)
  <= Z.max (interval_ms k) TIMER_RESOLUTION_MS.
Proof.
  intros HR Hi Hlate.
  pose proof (execute_time_ms_range start end_) as He.
  unfold drift_compensate.
  rewrite next_fire_value;
    [|exact HR|rewrite accumulate_error_interval; exact Hi|lia].
  rewrite accumulate_error_interval.
  destruct (Z.leb_spec (interval_ms k) (execute_time_ms_of start end_)); [lia|].
  destruct (Z.leb_spec (ns_to_ms (accumulated_error_ns (accumulate_error start k)))
              (interval_ms k - execute_time_ms_of start end_ - TIMER_RESOLUTION_MS));
    lia.
Qed.

End DriftExtras.

(** ** A timer under the dispatch of the wheel *)

Section Dispatch.
Context {W : TimingWheelConstants}.

Lemma fired_returning rs : thrown rs = false -> fired rs = length rs.
Proof.
  induction rs as [|[st [en|]] rs IH]; cbn; intros H;
    [reflexivity|rewrite IH by exact H; reflexivity|discriminate].
Qed.

Lemma fired_le rs : (fired rs <= length rs)%nat.
Proof. induction rs as [|[st [en|]] rs IH]; cbn; lia. Qed.

(** The wheel holds the one submission of a live periodic task: every
    dispatch fires it and, when the user's callback returns, puts the next
    one in its place.  After a firing whose user callback threw the wheel
    is empty, and the later dispatches find nothing. *)
Lemma fire_all_periodic c w rs : forall s k,
  cb_oneshot c = false -> cb_weak c = w ->
  heap s !! w = Some {| obj := k; use_count := 1 |} -> mutex k = false ->
  callback k = Some c ->
  wheel s = [{| sub_task := w; sub_delay_ms := next_fire_duration_ms k;
                sub_callback := Some c |}] ->
  exists s' k',
    fire_all rs s = Some s' /\
    heap s' !! w = Some {| obj := k'; use_count := 1 |} /\
    mutex k' = false /\ callback k' = Some c /\
    wheel s' = (if thrown rs then []
                else [{| sub_task := w; sub_delay_ms := next_fire_duration_ms k';
                         sub_callback := Some c |}]) /\
    user_calls (cb_user c) s' = (user_calls (cb_user c) s + fired rs)%nat.
Proof.
  induction rs as [|[st [en|]] rs IH]; intros s k Hc Hw Hk Hm Hcb Hq.
  - exists s, k. cbn. rewrite Nat.add_0_r. repeat split; auto.
  - cbn. unfold fire. rewrite Hq. cbn. unfold invoke. rewrite Hc, Hw.
    erewrite periodic_callback_alive; [|cbn; exact Hk|exact Hm]. cbn.
    destruct (drift_compensate_frame st en k) as (_ & _ & Hm' & Hcb').
    match goal with |- context [fire_all rs ?s1] =>
      destruct (IH s1 (drift_compensate st en k) Hc Hw)
        as (s' & k' & E & Hk' & Hmk & Hck & Hq' & Hu)
    end.
    { cbn. apply lookup_insert_eq. }
    { congruence. }
    { congruence. }
    { cbn. rewrite Hcb. reflexivity. }
    exists s', k'. split; [exact E|]. split; [exact Hk'|].
    split; [exact Hmk|]. split; [exact Hck|]. split; [exact Hq'|].
    rewrite Hu. unfold user_calls. cbn.
    rewrite List.filter_app, !length_app. cbn. rewrite Nat.eqb_refl. cbn. lia.
  - cbn. unfold fire. rewrite Hq. cbn.
    erewrite periodic_firing_threw; [|exact Hc|exact Hw|cbn; exact Hk|exact Hm].
    cbn. rewrite fire_all_empty by reflexivity.
    eexists _, k. split; [reflexivity|]. cbn.
    split; [exact Hk|]. split; [exact Hm|]. split; [exact Hcb|].
    split; [reflexivity|].
    unfold user_calls. cbn.
    rewrite List.filter_app, !length_app. cbn. rewrite Nat.eqb_refl. cbn. lia.
Qed.

(** A periodic timer under the dispatch of the wheel, from [Start] on. *)
Lemma Start_fire_all_periodic t s rs :
  reality_mode s = true -> idle t -> oneshot (timer_opt_ t) = false ->
  0 < period (timer_opt_ t) < TIMER_MAX_INTERVAL_MS -> wheel s = [] ->
  let w := next_addr s in
  let cb := opt_callback (timer_opt_ t) in
  exists s' k,
    fire_all rs (Start t s).2 = Some s' /\
    running (Start t s).1 s' w /\
    heap s' !! w = Some {| obj := k; use_count := 1 |} /\
    wheel s' = (if thrown rs then []
                else [{| sub_task := w; sub_delay_ms := next_fire_duration_ms k;
                         sub_callback := callback k |}]) /\
    callback k = Some {| cb_oneshot := false; cb_user := cb; cb_weak := w |} /\
    user_calls cb s' = (user_calls cb s + fired rs)%nat.
Proof.
  intros Hr Hi Hos Hp Hq w cb.
  rewrite (Start_valid t s Hr Hi Hp), Hos, Hq. cbn [fst snd app].
  set (c := {| cb_oneshot := false; cb_user := cb; cb_weak := w |}).
  match goal with |- context [fire_all rs ?s1] =>
    destruct (fire_all_periodic c w rs s1
                {| task_timer_id := timer_id_ t; callback := Some c;
                   interval_ms := period (timer_opt_ t);
                   next_fire_duration_ms := period (timer_opt_ t);
                   accumulated_error_ns := 0; last_execute_time_ns := 0;
                   mutex := false |} eq_refl eq_refl)
      as (s' & k & E & Hk & Hm & Hcb & Hq' & Hu)
  end.
  { cbn. apply lookup_insert_eq. }
  { reflexivity. } { reflexivity. } { reflexivity. }
  exists s', k. split; [exact E|].
  split.
  { split; [reflexivity|]. split; [reflexivity|].
    eexists. split; [exact Hk|exact Hm]. }
  split; [exact Hk|]. split; [rewrite Hq', Hcb; reflexivity|].
  split; [exact Hcb|].
  cbn [cb_user c] in Hu. unfold c in Hu. cbn [cb_user] in Hu. rewrite Hu.
  unfold user_calls. cbn. rewrite List.filter_app, length_app. cbn. lia.
Qed.

(** X11: a periodic timer started on an empty wheel, under the dispatch of
    the wheel.  As long as the user's callback returns, exactly one
    submission is pending, that of the task with the delay the task asks
    for, and every dispatch calls the user's callback once.  The first
    firing whose user callback throws leaves the wheel empty: the handle is
    still started and holds its task, but the task is not fired again. *)
Theorem periodic_timer_one_pending_submission t s rs :
  reality_mode s = true -> idle t -> oneshot (timer_opt_ t) = false ->
  0 < period (timer_opt_ t) < TIMER_MAX_INTERVAL_MS -> wheel s = [] ->
  exists s' k,
    fire_all rs (Start t s).2 = Some s' /\
    running (Start t s).1 s' (next_addr s) /\
    task_at (next_addr s) s' = Some k /\
    callback k = Some {| cb_oneshot := false;
                         cb_user := opt_callback (timer_opt_ t);
                         cb_weak := next_addr s |} /\
    user_calls (opt_callback (timer_opt_ t)) s'
    = (user_calls (opt_callback (timer_opt_ t)) s + fired rs)%nat /\
    (thrown rs = false ->
       wheel s' = [{| sub_task := next_addr s;
                      sub_delay_ms := next_fire_duration_ms k;
                      sub_callback := callback k |}] /\
       fired rs = length rs) /\
    (thrown rs = true -> wheel s' = [] /\ (fired rs <= length rs)%nat).
Proof.
  intros Hr Hi Hos Hp Hq.
  destruct (Start_fire_all_periodic t s rs Hr Hi Hos Hp Hq)
    as (s' & k & E & Hrun & Hk & Hq' & Hcb & Hu).
  exists s', k. split; [exact E|]. split; [exact Hrun|].
  split; [unfold task_at; rewrite Hk; reflexivity|].
  split; [exact Hcb|]. split; [exact Hu|].
  split; intros Hth; rewrite Hth in Hq'.
  - split; [exact Hq'|apply fired_returning; exact Hth].
  - split; [exact Hq'|apply fired_le].
Qed.

(** After [Stop] the wheel fires the stale submission, if there is one,
    once and to no effect. *)
Lemma fire_all_after_Stop c w rs s :
  cb_weak c = w -> heap s !! w = None ->
  wheel s = [] \/ (exists sub, wheel s = [sub] /\ sub_callback sub = Some c) ->
  exists s',
    fire_all rs s = Some s' /\ heap s' = heap s /\ trace s' = trace s /\
    (rs <> [] -> wheel s' = []).
Proof.
  intros Hw Hdead [Hq|(sub & Hq & Hcb)].
  - exists s. rewrite fire_all_empty by exact Hq. auto.
  - destruct rs as [|[st en] rs].
    + exists s. cbn. repeat split; auto. intros E; contradiction.
    + cbn. unfold fire. rewrite Hq, Hcb.
      rewrite invoke_dead by (cbn; rewrite Hw; exact Hdead). cbn.
      rewrite fire_all_empty by reflexivity.
      eexists. split; [reflexivity|]. cbn. auto.
Qed.

(** X12: [Stop] ends a periodic timer.  After any number of firings,
    [Stop] returns and releases the task; however long the wheel keeps
    dispatching afterwards, the user's callback does not run again, and
    the first dispatch empties the wheel.  The user's callback has run
    once per firing up to [Stop], or up to the first firing in which it
    threw. *)
Theorem Stop_ends_periodic_timer t s rs rs' :
  reality_mode s = true -> idle t -> oneshot (timer_opt_ t) = false ->
  0 < period (timer_opt_ t) < TIMER_MAX_INTERVAL_MS -> wheel s = [] ->
  let w := next_addr s in
  let cb := opt_callback (timer_opt_ t) in
  exists s1 t2 s2 s3,
    fire_all rs (Start t s).2 = Some s1 /\
    Stop (Start t s).1 s1 = Some (t2, s2) /\ idle t2 /\
    fire_all rs' s2 = Some s3 /\
    heap s3 !! w = None /\
    user_calls cb s3 = (user_calls cb s + fired rs)%nat /\
    (thrown rs = false -> user_calls cb s3 = (user_calls cb s + length rs)%nat) /\
    (rs' <> [] -> wheel s3 = []).
Proof.
  intros Hr Hi Hos Hp Hq w cb.
  destruct (Start_fire_all_periodic t s rs Hr Hi Hos Hp Hq)
    as (s1 & k & E1 & Hrun & Hk & Hq1 & Hcb & Hu).
  exists s1. eexists _, _.
  pose proof (Stop_running _ _ _ Hrun) as E2.
  match type of E2 with _ = Some (_, ?s2) =>
    destruct (fire_all_after_Stop
                {| cb_oneshot := false; cb_user := cb; cb_weak := w |} w rs' s2
                eq_refl)
      as (s3 & E3 & Hh3 & Ht3 & Hq3)
  end.
  { cbn. apply lookup_delete_eq. }
  { cbn. rewrite Hq1. destruct (thrown rs); [left; reflexivity|].
    right. eexists. split; [reflexivity|exact Hcb]. }
  exists s3. split; [exact E1|]. split; [exact E2|].
  split; [split; reflexivity|]. split; [exact E3|].
  split; [rewrite Hh3; cbn; apply lookup_delete_eq|].
  assert (Hcalls : user_calls cb s3 = (user_calls cb s + fired rs)%nat).
  { unfold user_calls in *. rewrite Ht3. cbn.
    rewrite List.filter_app, length_app. cbn. fold w cb in Hu. lia. }
  split; [exact Hcalls|]. split; [|exact Hq3].
  intros Hth. rewrite Hcalls, (fired_returning rs Hth). reflexivity.
Qed.

(** X13: a one-shot timer that has fired is still started and still holds
    its task: [Start] on it does nothing and nothing is pending in the
    wheel.  To arm it again it has to be stopped first; [Start] then makes
    a new task and one submission. *)
Theorem oneshot_rearm_needs_Stop t s start ending :
  reality_mode s = true -> idle t -> oneshot (timer_opt_ t) = true ->
  0 < period (timer_opt_ t) < TIMER_MAX_INTERVAL_MS -> wheel s = [] ->
  let w := next_addr s in
  let t1 := (Start t s).1 in
  exists s2 t3 s3,
    fire start ending (Start t s).2 = Some s2 /\
    running t1 s2 w /\ wheel s2 = [] /\
    Start t1 s2 = (t1, s2) /\
    Stop t1 s2 = Some (t3, s3) /\
    running (Start t3 s3).1 (Start t3 s3).2 (S w) /\
    length (wheel (Start t3 s3).2) = 1%nat.
Proof.
  intros Hr Hi Hos Hp Hq w t1. unfold t1.
  rewrite (Start_valid t s Hr Hi Hp), Hos, Hq. cbn [fst snd app].
  unfold fire. cbn. unfold invoke. cbn.
  erewrite oneshot_callback_alive; [|cbn; apply lookup_insert_eq|reflexivity].
  eexists. 
  match goal with |- exists t3 s3, Some ?s2 = _ /\ running ?t1 _ _ /\ _ =>
    assert (Hrun : running t1 s2 w)
  end.
  { split; [reflexivity|]. split; [reflexivity|].
    eexists. split; [cbn; apply lookup_insert_eq|reflexivity]. }
  eexists _, _. split; [reflexivity|]. split; [exact Hrun|].
  split; [reflexivity|].
  split; [apply Start_started; reflexivity|].
  split; [apply (Stop_running _ _ _ Hrun)|].
  split.
  - match goal with |- running (Start ?t3 ?s3).1 _ _ =>
      apply (Start_gives_running t3 s3) end;
      [reflexivity|split; reflexivity|exact Hp].
  - rewrite Start_valid; [|reflexivity|split; reflexivity|exact Hp]. reflexivity.
Qed.

End Dispatch.

(** ** Any sequence of calls *)

Section Calls.
Context {W : TimingWheelConstants}.

(** X14: outside reality mode the timer is inert.  Whatever sequence of
    [Start], [Stop], [SetTimerOption] and dispatches of the (empty) wheel
    is applied to an idle handle, every call returns, the system stays as
    it was (no task, no submission, no log line) and the handle stays
    idle. *)
Theorem replay_mode_is_inert cs : forall t s,
  reality_mode s = false -> idle t -> wheel s = [] ->
  exists t', calls cs t s = Some (t', s) /\ idle t'.
Proof.
  induction cs as [|c cs IH]; intros t s Hr Hi Hq.
  - exists t. cbn. auto.
  - destruct Hi as [Hs Ht]. destruct c as [| |opt|st en]; cbn.
    + rewrite Start_replay by exact Hr. cbn. apply IH; [exact Hr|split|]; assumption.
    + rewrite Stop_not_started by exact Hs. cbn.
      apply IH; [exact Hr|split|]; assumption.
    + apply IH; [exact Hr|split|]; assumption.
    + unfold fire. rewrite Hq. cbn. apply IH; [exact Hr|split|]; assumption.
Qed.

(** [InitTimerTask] on a handle without a task, for any period that passes
    its two checks. *)
Lemma InitTimerTask_passes t s :
  task_ t = None -> period (timer_opt_ t) <> 0 ->
  period (timer_opt_ t) < TIMER_MAX_INTERVAL_MS ->
  exists k,
    InitTimerTask t s
    = (true, set_task_ (Some (next_addr s)) t,
       {| reality_mode := reality_mode s; global_timer_id := global_timer_id s;
          heap := <[next_addr s := {| obj := k; use_count := 1 |}]> (heap s);
          next_addr := S (next_addr s); wheel := wheel s; trace := trace s |}) /\
    mutex k = false.
Proof.
  intros Ht Hz Hlt. unfold InitTimerTask.
  destruct (Z.eqb_spec (period (timer_opt_ t)) 0) as [|_]; [contradiction|].
  destruct (Z.leb_spec TIMER_MAX_INTERVAL_MS (period (timer_opt_ t))); [lia|].
  rewrite Ht. unfold make_shared. heap_simpl.
  eexists. split; reflexivity.
Qed.

Lemma AddTask_heap a s : heap (AddTask a s) = heap s.
Proof. unfold AddTask. destruct (heap s !! a); reflexivity. Qed.

Lemma Start_sole_owner t s :
  sole_owner t s -> sole_owner (Start t s).1 (Start t s).2.
Proof.
  intros H. destruct (reality_mode s) eqn:Hr;
    [|rewrite Start_replay by exact Hr; exact H].
  destruct (started_ t) eqn:Hs;
    [rewrite Start_started by exact Hs; exact H|].
  destruct H as [Hst Hh]. unfold Start. rewrite Hr, Hs. cbn.
  specialize (Hst Hs). rewrite Hst in Hh.
  destruct (Z.eq_dec (period (timer_opt_ t)) 0) as [E|E].
  { rewrite InitTimerTask_zero by exact E.
    split; cbn; [discriminate|rewrite Hst; exact Hh]. }
  destruct (Z_le_gt_dec TIMER_MAX_INTERVAL_MS (period (timer_opt_ t))) as [Hle|Hgt].
  { rewrite InitTimerTask_too_large by assumption.
    split; cbn; [discriminate|rewrite Hst; exact Hh]. }
  destruct (InitTimerTask_passes (set_started_ true t) s Hst E) as (k & E1 & Hm);
    [cbn; lia|].
  rewrite E1. cbn [task_ set_task_].
  split; cbn [fst snd started_ task_ set_task_ set_started_]; [discriminate|].
  exists k. split; [|exact Hm].
  unfold emit. cbn [heap]. rewrite AddTask_heap. cbn [heap]. rewrite Hh.
  apply insert_empty.
Qed.

Lemma Stop_sole_owner t s :
  sole_owner t s ->
  exists t1 s1, Stop t s = Some (t1, s1) /\ sole_owner t1 s1.
Proof.
  intros H. destruct (started_ t) eqn:Hs;
    [|eexists _, _; split; [apply Stop_not_started; exact Hs|exact H]].
  destruct H as [Hst Hh].
  - destruct (task_ t) as [a|] eqn:Ht.
    + destruct Hh as (k & Hk & Hm).
      assert (Hrun : running t s a).
      { split; [exact Hs|]. split; [exact Ht|].
        exists k. rewrite Hk. split; [apply lookup_singleton_eq|exact Hm]. }
      eexists _, _. split; [apply (Stop_running _ _ _ Hrun)|].
      split; [reflexivity|]. cbn. rewrite Hk. apply delete_singleton_eq.
    + eexists _, _. split; [apply Stop_no_task; exact Ht|].
      split; cbn; [intros _; exact Ht|]. rewrite Ht. exact Hh.
Qed.

Lemma invoke_sole_owner t c start ending s q :
  sole_owner t s ->
  exists s1,
    invoke c start ending
      {| reality_mode := reality_mode s; global_timer_id := global_timer_id s;
         heap := heap s; next_addr := next_addr s; wheel := q; trace := trace s |}
    = Some s1 /\ sole_owner t s1.
Proof.
  intros [Hst Hh].
  set (s0 := {| reality_mode := reality_mode s; global_timer_id := global_timer_id s;
                heap := heap s; next_addr := next_addr s; wheel := q;
                trace := trace s |}).
  destruct (heap s !! cb_weak c) as [cell|] eqn:Hl.
  - destruct (task_ t) as [a|] eqn:Ht; [|rewrite Hh, lookup_empty in Hl; discriminate].
    rewrite <- Ht in Hst.
    destruct Hh as (k & Hk & Hm). rewrite Hk in Hl.
    apply lookup_singleton_Some in Hl as [Ha <-].
    assert (Hl0 : heap s0 !! cb_weak c = Some {| obj := k; use_count := 1 |}).
    { cbn. rewrite Hk, <- Ha. apply lookup_singleton_eq. }
    unfold invoke. destruct (cb_oneshot c).
    + rewrite (oneshot_callback_alive _ _ _ _ _ Hl0 Hm).
      eexists. split; [reflexivity|]. split; [exact Hst|].
      rewrite Ht. exists k. cbn. auto.
    + destruct ending as [end_|].
      * rewrite (periodic_callback_alive _ _ _ _ _ _ _ Hl0 Hm).
        eexists. split; [reflexivity|]. split; [exact Hst|].
        rewrite Ht. eexists. cbn. rewrite Hk, <- Ha, insert_singleton_eq.
        split; [reflexivity|].
        destruct (drift_compensate_frame start end_ k) as (_ & _ & -> & _). exact Hm.
      * rewrite (periodic_callback_threw _ _ _ _ _ _ Hl0 Hm).
        eexists. split; [reflexivity|]. split; [exact Hst|].
        rewrite Ht. exists k. cbn. auto.
  - rewrite invoke_dead by exact Hl.
    eexists. split; [reflexivity|]. split; [exact Hst|exact Hh].
Qed.

Lemma call_sole_owner c t s :
  sole_owner t s ->
  exists t1 s1, call c t s = Some (t1, s1) /\ sole_owner t1 s1.
Proof.
  intros H. destruct c as [| |opt|st en]; cbn.
  - pose proof (Start_sole_owner t s H) as H1.
    destruct (Start t s) as [t1 s1]. exists t1, s1. split; [reflexivity|exact H1].
  - apply Stop_sole_owner. exact H.
  - eexists _, _. split; [reflexivity|]. exact H.
  - unfold fire. destruct (wheel s) as [|sub rest] eqn:Hq.
    + cbn. eexists _, _. split; [reflexivity|exact H].
    + destruct (sub_callback sub) as [cl|].
      * destruct (invoke_sole_owner t cl st en s rest H) as (s1 & -> & H1).
        cbn. eexists _, _. split; [reflexivity|exact H1].
      * cbn. eexists _, _. split; [reflexivity|]. exact H.
Qed.

(** X15: no task leaks when the calls come one after the other and the
    user's callback does not itself call the timer.  From a handle that is
    the sole owner of the store (for instance a new handle and an empty
    store), whatever sequence of [Start], [Stop], [SetTimerOption] and
    dispatches of the wheel is applied, in either mode and with any
    options, the user's callback returning or throwing, no call has to
    wait for the mutex, and after every call the store holds exactly the
    task of the handle, with use count 1 and a free mutex, or is empty when
    the handle holds none, and a handle that is not started holds no
    task. *)
Theorem calls_keep_sole_owner cs : forall t s,
  sole_owner t s ->
  exists t' s', calls cs t s = Some (t', s') /\ sole_owner t' s'.
Proof.
  induction cs as [|c cs IH]; intros t s H.
  - exists t, s. cbn. auto.
  - destruct (call_sole_owner c t s H) as (t1 & s1 & E & H1).
    destruct (IH t1 s1 H1) as (t' & s' & E' & H').
    exists t', s'. cbn. rewrite E. cbn. auto.
Qed.

End Calls.

(** ** Ownership of the task while [Stop] races with a callback *)

Section RaceExtras.
Context {W : TimingWheelConstants}.
Variable c : Closure.
Variable start : Z.
Variable ending : Ending.

(** X16: under every interleaving of [Stop] with an invocation of the
    callback, the use count of the task is the number of [shared_ptr]s that
    the handle, [Stop] and the invocation hold; the task is alive at every
    point where [Stop] or the invocation holds one (no use after free),
    and when both have returned the task is freed and the handle is
    idle. *)
Theorem race_is_memory_safe a x0 sched x :
  cb_weak c = a -> running_at a x0 ->
  run c start ending sched x0 = Some x ->
  match owners x with
  | O => heap (c_sys x) !! a = None
  | S n => exists k, heap (c_sys x) !! a = Some {| obj := k; use_count := S n |}
  end /\
  (stop_holds_tmp (c_stop x) || cb_holds_task (c_cb x) = true ->
     is_Some (heap (c_sys x) !! a)) /\
  (c_stop x = SpReturned -> c_cb x = CpReturned ->
     heap (c_sys x) !! a = None /\ idle (c_timer x)).
Proof.
  intros Hw H0 E.
  assert (Hx : consistent a x).
  { apply (run_consistent c start ending a Hw sched x0 x); [|exact E].
    apply running_at_consistent. exact H0. }
  destruct Hx as [Hpc Htask Hstarted _ Hheap].
  split; [|split].
  - destruct (owners x); [exact Hheap|].
    destruct Hheap as (k & Hk & _). exists k. exact Hk.
  - intros Hold.
    assert (Hpos : (0 < owners x)%nat).
    { unfold owners. destruct (stop_holds_tmp (c_stop x));
        destruct (cb_holds_task (c_cb x)); cbn in Hold; try discriminate;
        destruct (handle_holds (c_stop x)); cbn; lia. }
    destruct (owners x); [lia|].
    destruct Hheap as (k & Hk & _). rewrite Hk. eexists. reflexivity.
  - intros Hp Hq. unfold owners in Hheap. rewrite Hp, Hq in *. cbn in *.
    split; [exact Hheap|]. split; assumption.
Qed.

End RaceExtras.

(** ** The further properties on the sample handles *)

Lemma sample_running :
  running (sample_started 100 false).1 (sample_started 100 false).2 0.
Proof.
  split; [reflexivity|]. split; [reflexivity|].
  exists (sample_task 100 false). split; [exact sample_started_task|reflexivity].
Qed.

Lemma SetTimerOption_while_running_witness :
  Start (W := apollo_wheel)
    (SetTimerOption {| period := 50; opt_callback := 9; oneshot := true |}
       (sample_started 100 false).1)
    (sample_started 100 false).2
  = (SetTimerOption {| period := 50; opt_callback := 9; oneshot := true |}
       (sample_started 100 false).1,
     (sample_started 100 false).2).
Proof.
  destruct (SetTimerOption_while_running (W := apollo_wheel)
              (sample_started 100 false).1 (sample_started 100 false).2 0
              {| period := 50; opt_callback := 9; oneshot := true |})
    as (_ & Hnoop & _).
  - reflexivity.
  - exact sample_running.
  - cbn. lia.
  - exact Hnoop.
Defined.

Lemma Start_then_Stop_round_trip_witness :
  exists s2,
    Stop (sample_started 100 false).1 (sample_started 100 false).2
    = Some ((sample_timer 100 false).1, s2) /\
    heap s2 = heap (sample_timer 100 false).2.
Proof.
  destruct (Start_then_Stop_round_trip (W := apollo_wheel)
              (sample_timer 100 false).1 (sample_timer 100 false).2)
    as (s2 & E & Hh & _).
  - reflexivity.
  - split; reflexivity.
  - cbn. lia.
  - reflexivity.
  - exists s2. split; [exact E|exact Hh].
Defined.

Lemma Timer_destroy_releases_task_witness :
  exists t1 s1,
    Timer_destroy (sample_started 100 false).1 (sample_started 100 false).2
    = Some (t1, s1) /\ idle t1.
Proof.
  destruct (Timer_destroy_releases_task (W := apollo_wheel)
              (sample_started 100 false).1 (sample_started 100 false).2)
    as (Hrel & _).
  destruct (Hrel 0%nat sample_running) as (t1 & s1 & E & Hi & _).
  exists t1, s1. split; [exact E|exact Hi].
Defined.

Lemma invoke_restores_lock_and_count_witness :
  exists s' k',
    invoke (W := apollo_wheel) (sample_closure false) 1000000000 (Returned 1030000000)
      (sample_started 100 false).2 = Some s' /\
    heap s' !! 0%nat = Some {| obj := k'; use_count := 1 |} /\ mutex k' = false.
Proof.
  destruct (invoke_restores_lock_and_count (W := apollo_wheel) (sample_closure false)
              1000000000 (Returned 1030000000) (sample_started 100 false).2
              (sample_task 100 false) 0 sample_started_task)
    as (_ & Hfree).
  destruct (Hfree eq_refl) as (s' & k' & E & Hk & Hm & _).
  exists s', k'. split; [exact E|]. split; [exact Hk|exact Hm].
Defined.

(** Two firings and, between them, an invocation whose user callback
    throws: three calls of the user's callback, two new submissions. *)
Lemma periodic_task_keeps_interval_witness :
  exists s' k,
    invoke_all (W := apollo_wheel) (sample_closure false)
      [(1000000000, Returned 1030000000); (1050000000, Threw);
       (1103000000, Returned 1133000000)]
      (sample_started 100 false).2 = Some s' /\
    heap s' !! 0%nat = Some {| obj := k; use_count := 1 |} /\
    interval_ms k = 100 /\ user_calls 7 s' = 3%nat /\ length (wheel s') = 3%nat.
Proof.
  destruct (periodic_task_keeps_interval (W := apollo_wheel)
              (sample_timer 100 false).1 (sample_timer 100 false).2
              [(1000000000, Returned 1030000000); (1050000000, Threw);
               (1103000000, Returned 1133000000)])
    as (s' & k & E & Hk & Hi & _ & _ & _ & _ & Hq & Hu).
  - reflexivity.
  - split; reflexivity.
  - reflexivity.
  - cbn. lia.
  - exists s', k. split; [exact E|]. split; [exact Hk|]. split; [exact Hi|].
    split; [exact Hu|exact Hq].
Defined.

(** Firings at 1 s, 1.103 s and 1.2 s with a period of 100 ms: the errors
    of +3 ms and -3 ms cancel. *)
Lemma accumulated_error_telescopes_witness :
  accumulated_error_ns
    (firings (W := apollo_wheel)
       [(1000000000, 1030000000); (1103000000, 1133000000); (1200000000, 1230000000)]
       (sample_task 100 false))
  = to_int64 ((1200000000 - 1000000000) - 2 * (100 * 1000000)).
Proof.
  destruct (accumulated_error_telescopes (W := apollo_wheel) (sample_task 100 false)
              1000000000 1030000000
              [(1103000000, 1133000000); (1200000000, 1230000000)])
    as (_ & Hacc).
  - reflexivity.
  - reflexivity.
  - discriminate.
  - repeat constructor; cbn; discriminate.
  - exact Hacc.
Defined.

(** A first firing whose user callback ran 29.6 ms, with a period of
    100 ms: the running time counts as 30 ms and the task asks for 70 ms. *)
(** One and a half milliseconds count as two. *)
Lemma llround_stays_in_range_witness :
  exists r,
    round_half_away (quotient_1e6 1500000) = Some r /\ ns_to_ms 1500000 = r /\ r = 2.
Proof.
  destruct (llround_stays_in_range 1500000 ltac:(cbn; lia))
    as (r & E & _ & En & _).
  exists r. split; [exact E|]. split; [exact En|].
  rewrite <- En. vm_compute. reflexivity.
Defined.

Lemma no_drift_next_fire_witness :
  execute_time_ms_of 1000000000 1029600000 = 30 /\
  next_fire_duration_ms
    (drift_compensate (W := apollo_wheel) 1000000000 1029600000 (sample_task 100 false))
  = 70.
Proof.
  destruct (no_drift_next_fire (W := apollo_wheel) 1000000000 1029600000
              (sample_task 100 false))
    as (Hexec & _ & Hfit & _).
  - cbn. lia.
  - cbn. lia.
  - reflexivity.
  - left. reflexivity.
  - assert (He : execute_time_ms_of 1000000000 1029600000 = 30).
    { apply (nearest_half_away_unique _ _ _ Hexec).
      vm_compute. repeat split; first [discriminate|reflexivity]. }
    split; [exact He|].
    rewrite Hfit; rewrite He; cbn; lia.
Defined.

Lemma late_timer_waits_at_most_period_witness :
  2 <= next_fire_duration_ms
         (drift_compensate (W := apollo_wheel) 1000000000 1030000000
            (sample_task 100 false))
  <= Z.max 100 2.
Proof.
  apply (late_timer_waits_at_most_period (W := apollo_wheel) 1000000000 1030000000
           (sample_task 100 false)).
  - cbn. lia.
  - cbn. lia.
  - vm_compute. discriminate.
Defined.

(** Three dispatches, the user's callback throwing in the second firing:
    it was called twice, and nothing is pending any more. *)
Lemma periodic_timer_one_pending_submission_witness :
  exists s',
    fire_all (W := apollo_wheel)
      [(1000000000, Returned 1030000000); (1103000000, Threw);
       (1200000000, Returned 1230000000)]
      (sample_started 100 false).2 = Some s' /\
    wheel s' = [] /\ user_calls 7 s' = 2%nat.
Proof.
  destruct (periodic_timer_one_pending_submission (W := apollo_wheel)
              (sample_timer 100 false).1 (sample_timer 100 false).2
              [(1000000000, Returned 1030000000); (1103000000, Threw);
               (1200000000, Returned 1230000000)])
    as (s' & k & E & _ & _ & _ & Hu & _ & Hthrow).
  - reflexivity.
  - split; reflexivity.
  - reflexivity.
  - cbn. lia.
  - reflexivity.
  - exists s'. split; [exact E|].
    destruct Hthrow as [Hq _]; [reflexivity|]. split; [exact Hq|exact Hu].
Defined.

Lemma Stop_ends_periodic_timer_witness :
  exists s1 t2 s2 s3,
    fire_all (W := apollo_wheel) [(1000000000, Returned 1030000000)]
      (sample_started 100 false).2 = Some s1 /\
    Stop (sample_started 100 false).1 s1 = Some (t2, s2) /\
    fire_all (W := apollo_wheel) [(1103000000, Returned 1133000000); (1200000000, Returned 1230000000)]
      s2 = Some s3 /\
    user_calls 7 s3 = 1%nat /\ wheel s3 = [].
Proof.
  destruct (Stop_ends_periodic_timer (W := apollo_wheel)
              (sample_timer 100 false).1 (sample_timer 100 false).2
              [(1000000000, Returned 1030000000)]
              [(1103000000, Returned 1133000000); (1200000000, Returned 1230000000)])
    as (s1 & t2 & s2 & s3 & E1 & E2 & _ & E3 & _ & Hu & _ & Hq).
  - reflexivity.
  - split; reflexivity.
  - reflexivity.
  - cbn. lia.
  - reflexivity.
  - exists s1, t2, s2, s3. split; [exact E1|]. split; [exact E2|].
    split; [exact E3|]. split; [exact Hu|]. apply Hq. discriminate.
Defined.

Lemma oneshot_rearm_needs_Stop_witness :
  exists s2,
    fire (W := apollo_wheel) 50000000 (Returned 51000000) (sample_started 50 true).2 = Some s2 /\
    Start (W := apollo_wheel) (sample_started 50 true).1 s2
    = ((sample_started 50 true).1, s2) /\
    wheel s2 = [].
Proof.
  destruct (oneshot_rearm_needs_Stop (W := apollo_wheel)
              (sample_timer 50 true).1 (sample_timer 50 true).2 50000000 (Returned 51000000))
    as (s2 & t3 & s3 & E & _ & Hq & Hnoop & _).
  - reflexivity.
  - split; reflexivity.
  - reflexivity.
  - cbn. lia.
  - reflexivity.
  - exists s2. split; [exact E|]. split; [exact Hnoop|exact Hq].
Defined.

Lemma replay_mode_is_inert_witness :
  exists t',
    calls (W := apollo_wheel)
      [CallStart; CallFire 100000000 (Returned 130000000); CallStop; CallStart]
      (Timer_new 100 7 false boot_replay).1 (Timer_new 100 7 false boot_replay).2
    = Some (t', (Timer_new 100 7 false boot_replay).2) /\ idle t'.
Proof.
  apply (replay_mode_is_inert (W := apollo_wheel)).
  - reflexivity.
  - split; reflexivity.
  - reflexivity.
Defined.

Lemma calls_keep_sole_owner_witness :
  exists t' s',
    calls (W := apollo_wheel)
      [CallStart; CallFire 1000000000 (Returned 1030000000);
       CallSetTimerOption {| period := 0; opt_callback := 9; oneshot := false |};
       CallStop; CallStart; CallFire 1103000000 (Returned 1133000000); CallStop]
      (sample_timer 100 false).1 (sample_timer 100 false).2
    = Some (t', s') /\ sole_owner t' s'.
Proof.
  apply (calls_keep_sole_owner (W := apollo_wheel)).
  split; [reflexivity|]. reflexivity.
Defined.

Lemma race_is_memory_safe_witness :
  exists x,
    run (W := apollo_wheel) (sample_closure false) 100000000 (Returned 130000000)
      [TCallback; TStop; TStop; TStop; TStop; TStop; TStop;
       TCallback; TCallback; TCallback; TCallback; TCallback] sample_race = Some x /\
    heap (c_sys x) !! 0%nat = None /\ idle (c_timer x).
Proof.
  destruct (run (W := apollo_wheel) (sample_closure false) 100000000 (Returned 130000000)
              [TCallback; TStop; TStop; TStop; TStop; TStop; TStop;
               TCallback; TCallback; TCallback; TCallback; TCallback] sample_race)
    as [x|] eqn:E; [|vm_compute in E; discriminate].
  destruct (race_is_memory_safe (W := apollo_wheel) (sample_closure false)
              100000000 (Returned 130000000) 0%nat sample_race
              [TCallback; TStop; TStop; TStop; TStop; TStop; TStop;
               TCallback; TCallback; TCallback; TCallback; TCallback]
              x eq_refl) as (_ & _ & Hend).
  - split; [exact sample_running|split; reflexivity].
  - exact E.
  - exists x. split; [reflexivity|].
    assert (Hpc : c_stop x = SpReturned /\ c_cb x = CpReturned).
    { vm_compute in E. injection E as <-. split; reflexivity. }
    apply Hend; apply Hpc.
Defined.
